(** * medicate-kotlin: the metadata conversion and migration scripts

    A shallow embedding of
      - scripts/convert-metadata-to-json.py  (the Normalizer) and
      - scripts/migrate-medicines-to-sqlite.py (the Loader),
    with the properties of the pipeline stated and proved over it.

    Modelling conventions.
      - A Python [str] is a list of code points.  The model covers the
        Latin-1 range U+0000..U+00FF, one [ascii] per code point; on that
        range [str.lower], [str.strip] and the JSON escaping rules are the
        tables written out below.
      - A Python [dict] keeps insertion order: it is an association list
        whose keys are pairwise distinct, updated by [dict_set].
      - The csv, json and sqlite3 modules are not part of the repository;
        the parts the scripts call are modelled from their documented
        behaviour, next to the calls. *)

From Stdlib Require Import String Ascii List Bool Arith NArith Lia.
Import ListNotations.

Set Implicit Arguments.

(** ** Python strings *)

Module Str.

Definition str := list ascii.

(** String literals of the scripts. *)
Definition lit (s : string) : str := list_ascii_of_string s.

Fixpoint eqb (a b : str) : bool :=
  match a, b with
  | [], [] => true
  | x :: a', y :: b' => Ascii.eqb x y && eqb a' b'
  | _, _ => false
  end.

Definition code (c : ascii) : N := N_of_ascii c.

Definition between (lo hi n : N) : bool := (N.leb lo n && N.leb n hi)%bool.

(** [str.isspace] on one code point: TAB..CR, FS..US, SPACE, NEL, NBSP. *)
Definition is_space (c : ascii) : bool :=
  between 9 13 (code c) || between 28 32 (code c)
  || N.eqb (code c) 133 || N.eqb (code c) 160.

(** Upper-case code points: A..Z and the Latin-1 capitals (0xC0..0xDE
    without the multiplication sign 0xD7). *)
Definition is_upper (c : ascii) : bool :=
  between 65 90 (code c)
  || (between 192 222 (code c) && negb (N.eqb (code c) 215)).

Definition lower_char (c : ascii) : ascii :=
  if is_upper c then ascii_of_N (code c + 32) else c.

(** [s.lower()] *)
Definition lower (s : str) : str := map lower_char s.

Fixpoint lstrip (s : str) : str :=
  match s with
  | [] => []
  | c :: r => if is_space c then lstrip r else s
  end.

Definition rstrip (s : str) : str := rev (lstrip (rev s)).

(** [s.strip()] *)
Definition strip (s : str) : str := rstrip (lstrip s).

(** A string is lower-case when it holds no upper-case code point. *)
Definition is_lowercase (s : str) : Prop :=
  Forall (fun c => is_upper c = false) s.

(** A string has surrounding whitespace when its first or its last code
    point is a whitespace one. *)
Definition starts_with_space (s : str) : bool :=
  match s with
  | [] => false
  | c :: _ => is_space c
  end.

Definition ends_with_space (s : str) : bool := starts_with_space (rev s).

Definition padded (s : str) : bool := starts_with_space s || ends_with_space s.

End Str.
Import Str.

(** ** Python dictionaries with [str] keys *)

Section Dict.

Variable V : Type.

Definition dict := list (str * V).

(** [d[k] = v]: an existing key keeps its position, a new one goes last. *)
Fixpoint dict_set (d : dict) (k : str) (v : V) : dict :=
  match d with
  | [] => [(k, v)]
  | (k', v') :: r =>
      if Str.eqb k' k then (k', v) :: r else (k', v') :: dict_set r k v
  end.

(** [d.get(k)], [None] when the key is missing. *)
Fixpoint dict_find (d : dict) (k : str) : option V :=
  match d with
  | [] => None
  | (k', v') :: r => if Str.eqb k' k then Some v' else dict_find r k
  end.

(** [d.get(k, default)] *)
Definition dict_get (d : dict) (k : str) (default : V) : V :=
  match dict_find d k with
  | Some v => v
  | None => default
  end.

(** [dict(items)] and the dict comprehension: later items overwrite. *)
Definition dict_of_items (items : list (str * V)) : dict :=
  fold_left (fun d kv => dict_set d (fst kv) (snd kv)) items [].

Definition keys (d : dict) : list str := map fst d.

Definition wf_dict (d : dict) : Prop := NoDup (keys d).

End Dict.

(** ** Outcomes of a call *)

Inductive exn : Type :=
| AttributeError
| IntegrityError
| OperationalError.

Inductive result (A : Type) : Type :=
| Ok (a : A)
| Raise (e : exn).
Arguments Ok {A} a.
Arguments Raise {A} e.

Definition bind {A B} (r : result A) (f : A -> result B) : result B :=
  match r with
  | Ok a => f a
  | Raise e => Raise e
  end.

Notation "x <- c ;; k" := (bind c (fun x => k))
  (at level 61, c at next level, right associativity).

Fixpoint mapM {A B} (f : A -> result B) (l : list A) : result (list B) :=
  match l with
  | [] => Ok []
  | a :: r => b <- f a ;; bs <- mapM f r ;; Ok (b :: bs)
  end.

(** ** The Normalizer: convert-metadata-to-json.py *)

(** A Record: field name to text, or to [None] (JSON null). *)
Definition record := dict (option str).

(** The dict [csv.DictReader] yields for one row: the named fields and,
    when the row is longer than the header, the surplus cells under the
    key [None] (restkey), inserted last. *)
Record dictrow : Type := {
  fields : dict (option str);
  rest : option (list str)
}.

(** [DictReader.__next__] for field names [fieldnames] and a row of the
    reader: zip, then the surplus under restkey or the missing fields
    bound to restval ([None]). *)
Definition dictreader_row (fieldnames row : list str) : dictrow :=
  let d := dict_of_items (combine fieldnames (map Some row)) in
  let lf := length fieldnames in
  let lr := length row in
  if lf <? lr then {| fields := d; rest := Some (skipn lf row) |}
  else {| fields := fold_left (fun d key => dict_set d key None)
                              (skipn lr fieldnames) d;
          rest := None |}.

(** DictReader does not return blank rows. *)
Definition nonblank (row : list str) : bool :=
  match row with
  | [] => false
  | _ => true
  end.

(** [v.strip() if v else v] *)
Definition clean_value (v : option str) : option str :=
  match v with
  | Some ((_ :: _) as s) => Some (strip s)
  | _ => v
  end.

(** [{k.lower(): v.strip() if v else v for k, v in row.items()}]:
    the key [None] has no [lower]. *)
Definition clean_row (row : dictrow) : result record :=
  match rest row with
  | Some _ => Raise AttributeError
  | None =>
      Ok (dict_of_items
            (map (fun kv => (lower (fst kv), clean_value (snd kv)))
                 (fields row)))
  end.

(** The rows of the reader after the header that DictReader yields. *)
Definition data_rows (rows : list (list str)) : list (list str) :=
  filter nonblank rows.

(** The loop of [convert_csv_to_json] over the rows of [csv.reader]
    (the first one is the header; an empty file has none). *)
Definition read_records (table : list (list str)) : result (list record) :=
  match table with
  | [] => Ok []
  | fieldnames :: rows =>
      mapM (fun row => clean_row (dictreader_row fieldnames row))
           (data_rows rows)
  end.

(** The items DictReader puts in the dict of a row that is not longer
    than the header. *)
Definition row_items (fieldnames row : list str) : list (str * option str) :=
  combine fieldnames (map Some row)
  ++ map (fun key => (key, None)) (skipn (length row) fieldnames).


(** A table is valid when no row after the header is blank or longer than
    the header. *)
Definition valid_row (fieldnames row : list str) : Prop :=
  row <> [] /\ length row <= length fieldnames.

Definition valid_table (fieldnames : list str) (rows : list (list str)) : Prop :=
  Forall (valid_row fieldnames) rows.

(** ** The json module on documents of Records *)

Module Json.

Definition text := str.

Definition dquote : ascii := "034"%char.
Definition backslash : ascii := "\"%char.
Definition newline : ascii := "010"%char.

Definition hex_digit (n : N) : ascii :=
  if N.ltb n 10 then ascii_of_N (48 + n) else ascii_of_N (87 + n).

(** ESCAPE_DCT of json.encoder, with [ensure_ascii=False]: the quote, the
    backslash and the control characters are escaped, nothing else. *)
Definition escape_char (c : ascii) : text :=
  let n := code c in
  if N.eqb n 34 then [backslash; dquote]
  else if N.eqb n 92 then [backslash; backslash]
  else if N.eqb n 8 then [backslash; "b"%char]
  else if N.eqb n 12 then [backslash; "f"%char]
  else if N.eqb n 10 then [backslash; "n"%char]
  else if N.eqb n 13 then [backslash; "r"%char]
  else if N.eqb n 9 then [backslash; "t"%char]
  else if N.ltb n 32 then
    [backslash; "u"%char; "0"%char; "0"%char;
     hex_digit (N.div n 16); hex_digit (N.modulo n 16)]
  else [c].

Definition escape (s : str) : text := flat_map escape_char s.

(** [py_encode_basestring] *)
Definition encode_basestring (s : str) : text :=
  dquote :: escape s ++ [dquote].

Definition encode_value (v : option str) : text :=
  match v with
  | None => lit "null"
  | Some s => encode_basestring s
  end.

(** [key_separator] is [": "], [item_separator] is [","] followed by the
    newline and the indentation of the level. *)
Definition encode_member (kv : str * option str) : text :=
  encode_basestring (fst kv) ++ lit ": " ++ encode_value (snd kv).

Definition newline_indent (level : nat) : text :=
  newline :: concat (repeat (lit "  ") level).

Fixpoint join (sep : text) (chunks : list text) : text :=
  match chunks with
  | [] => []
  | [x] => x
  | x :: r => x ++ sep ++ join sep r
  end.

(** [_iterencode_dict] one level inside the top-level list. *)
Definition encode_dict (d : record) : text :=
  match d with
  | [] => lit "{}"
  | _ => lit "{" ++ newline_indent 2
         ++ join (lit "," ++ newline_indent 2) (map encode_member d)
         ++ newline_indent 1 ++ lit "}"
  end.

(** [json.dump(records, f, indent=2, ensure_ascii=False)]: the text
    written to [f]. *)
Definition dump (records : list record) : text :=
  match records with
  | [] => lit "[]"
  | _ => lit "[" ++ newline_indent 1
         ++ join (lit "," ++ newline_indent 1) (map encode_dict records)
         ++ newline_indent 0 ++ lit "]"
  end.

(** *** Decoding *)

(** WHITESPACE of json.decoder: space, TAB, LF, CR. *)
Definition is_ws (c : ascii) : bool :=
  let n := code c in
  N.eqb n 32 || N.eqb n 9 || N.eqb n 10 || N.eqb n 13.

Fixpoint skip_ws (s : text) : text :=
  match s with
  | [] => []
  | c :: r => if is_ws c then skip_ws r else s
  end.

Definition hex_value (c : ascii) : option N :=
  let n := code c in
  if between 48 57 n then Some (n - 48)%N
  else if between 97 102 n then Some (n - 87)%N
  else if between 65 70 n then Some (n - 55)%N
  else None.

(** [_decode_uXXXX], for an escape that is a Latin-1 code point. *)
Definition decode_uXXXX (h1 h2 h3 h4 : ascii) : option ascii :=
  match hex_value h1, hex_value h2, hex_value h3, hex_value h4 with
  | Some a, Some b, Some c, Some d =>
      if N.eqb a 0 && N.eqb b 0 then Some (ascii_of_N (16 * c + d)) else None
  | _, _, _, _ => None
  end.

(** BACKSLASH of json.decoder. *)
Definition unescape (e : ascii) : option ascii :=
  let n := code e in
  if N.eqb n 34 then Some dquote
  else if N.eqb n 92 then Some backslash
  else if N.eqb n 47 then Some "/"%char
  else if N.eqb n 98 then Some (ascii_of_N 8)
  else if N.eqb n 102 then Some (ascii_of_N 12)
  else if N.eqb n 110 then Some (ascii_of_N 10)
  else if N.eqb n 114 then Some (ascii_of_N 13)
  else if N.eqb n 116 then Some (ascii_of_N 9)
  else None.

Definition cons_fst (c : ascii) (r : option (str * text))
  : option (str * text) :=
  match r with
  | Some (s, t) => Some (c :: s, t)
  | None => None
  end.

(** [py_scanstring] (strict), from the character after the opening
    quote: the string and the text after its closing quote. *)
Fixpoint scanstring (s : text) : option (str * text) :=
  match s with
  | [] => None
  | c :: r =>
      if N.eqb (code c) 34 then Some ([], r)
      else if N.eqb (code c) 92 then
        match r with
        | [] => None
        | e :: r1 =>
            if N.eqb (code e) 117 then
              match r1 with
              | h1 :: h2 :: h3 :: h4 :: r2 =>
                  match decode_uXXXX h1 h2 h3 h4 with
                  | Some ch => cons_fst ch (scanstring r2)
                  | None => None
                  end
              | _ => None
              end
            else
              match unescape e with
              | Some ch => cons_fst ch (scanstring r1)
              | None => None
              end
        end
      else if N.ltb (code c) 32 then None
      else cons_fst c (scanstring r)
  end.

(** [scan_once] at the value of a member: a string or [null]. *)
Definition parse_value (s : text) : option (option str * text) :=
  match s with
  | c :: r =>
      if N.eqb (code c) 34 then
        match scanstring r with
        | Some (v, t) => Some (Some v, t)
        | None => None
        end
      else
        match s with
        | n :: u :: l1 :: l2 :: t =>
            if Str.eqb [n; u; l1; l2] (lit "null") then Some (None, t)
            else None
        | _ => None
        end
  | [] => None
  end.

Definition expect (c : ascii) (s : text) : option text :=
  match s with
  | x :: r => if Ascii.eqb x c then Some r else None
  | [] => None
  end.

(** The loop of [JSONObject], from the character after the opening quote
    of a key. *)
Fixpoint parse_pairs (fuel : nat) (s : text)
  : option (list (str * option str) * text) :=
  match fuel with
  | 0 => None
  | S fuel' =>
      match scanstring s with
      | None => None
      | Some (key, s1) =>
          match expect ":"%char (skip_ws s1) with
          | None => None
          | Some s2 =>
              match parse_value (skip_ws s2) with
              | None => None
              | Some (v, s3) =>
                  match skip_ws s3 with
                  | c :: s4 =>
                      if Ascii.eqb c "}"%char then Some ([(key, v)], s4)
                      else if Ascii.eqb c ","%char then
                        match expect dquote (skip_ws s4) with
                        | None => None
                        | Some s5 =>
                            match parse_pairs fuel' s5 with
                            | Some (ps, t) => Some ((key, v) :: ps, t)
                            | None => None
                            end
                        end
                      else None
                  | [] => None
                  end
              end
          end
      end
  end.

(** [JSONObject], from the character after the opening brace; the pairs
    go through [dict]. *)
Definition parse_object (s : text) : option (record * text) :=
  match skip_ws s with
  | c :: r =>
      if Ascii.eqb c "}"%char then Some ([], r)
      else if Ascii.eqb c dquote then
        match parse_pairs (length r) r with
        | Some (ps, t) => Some (dict_of_items ps, t)
        | None => None
        end
      else None
  | [] => None
  end.

(** The loop of [JSONArray], at the first character of an element. *)
Fixpoint parse_elements (fuel : nat) (s : text)
  : option (list record * text) :=
  match fuel with
  | 0 => None
  | S fuel' =>
      match expect "{"%char s with
      | None => None
      | Some s1 =>
          match parse_object s1 with
          | None => None
          | Some (d, s2) =>
              match skip_ws s2 with
              | c :: s3 =>
                  if Ascii.eqb c "]"%char then Some ([d], s3)
                  else if Ascii.eqb c ","%char then
                    match parse_elements fuel' (skip_ws s3) with
                    | Some (ds, t) => Some (d :: ds, t)
                    | None => None
                    end
                  else None
              | [] => None
              end
          end
      end
  end.

Definition parse_array (s : text) : option (list record * text) :=
  match skip_ws s with
  | c :: r =>
      if Ascii.eqb c "]"%char then Some ([], r)
      else parse_elements (length (c :: r)) (c :: r)
  | [] => None
  end.

(** [json.load] on a document that is an array of objects whose members
    are strings or null; [None] stands for every other document (one the
    decoder rejects, or one that does not hold Records). *)
Definition load (s : text) : option (list record) :=
  match expect "["%char (skip_ws s) with
  | None => None
  | Some s1 =>
      match parse_array s1 with
      | Some (records, t) =>
          match skip_ws t with
          | [] => Some records
          | _ => None
          end
      | None => None
      end
  end.

(** *** The file: UTF-8 text *)

(** [open(path, 'w', encoding='utf-8')]: a code point below U+0080 is one
    byte, a Latin-1 code point above it two. *)
Definition encode_char (c : ascii) : list Byte.byte :=
  let n := code c in
  if N.ltb n 128 then [byte_of_ascii c]
  else [byte_of_ascii (ascii_of_N (192 + N.div n 64));
        byte_of_ascii (ascii_of_N (128 + N.modulo n 64))].

Definition encode_utf8 (s : text) : list Byte.byte := flat_map encode_char s.

Definition map_cons (c : ascii) (r : option text) : option text :=
  match r with
  | Some s => Some (c :: s)
  | None => None
  end.

(** Reading the file back; [None] for bytes that are not the UTF-8 form
    of Latin-1 text. *)
Fixpoint decode_utf8 (bs : list Byte.byte) : option text :=
  match bs with
  | [] => Some []
  | b :: r =>
      let n := Byte.to_N b in
      if N.ltb n 128 then map_cons (ascii_of_N n) (decode_utf8 r)
      else if N.eqb n 194 || N.eqb n 195 then
        match r with
        | b2 :: r' =>
            let m := Byte.to_N b2 in
            if between 128 191 m
            then map_cons (ascii_of_N ((n - 192) * 64 + (m - 128)))
                          (decode_utf8 r')
            else None
        | [] => None
        end
      else None
  end.

(** [json.dump(records, f, indent=2, ensure_ascii=False)] on a file opened
    for writing, and [json.load(f)] on one opened for reading. *)
Definition write_json (records : list record) : list Byte.byte :=
  encode_utf8 (dump records).

Definition read_json (file : list Byte.byte) : option (list record) :=
  match decode_utf8 file with
  | Some s => load s
  | None => None
  end.

(** The text of the members of an object from the character after the
    opening quote of the first key, up to the closing brace, followed by
    [tail]. *)
Fixpoint pairs_text (k : str) (v : option str)
    (ms : list (str * option str)) (tail : text) : text :=
  escape k ++ dquote :: lit ": " ++ encode_value v ++
  match ms with
  | [] => newline_indent 1 ++ lit "}" ++ tail
  | (k', v') :: ms' =>
      lit "," ++ newline_indent 2 ++ dquote :: pairs_text k' v' ms' tail
  end.


(** The text of the elements of the top-level array from the first
    character of the first one, up to the closing bracket. *)
Fixpoint elements_text (d : record) (ds : list record) (tail : text) : text :=
  encode_dict d ++
  match ds with
  | [] => newline_indent 0 ++ lit "]" ++ tail
  | d' :: ds' => lit "," ++ newline_indent 1 ++ elements_text d' ds' tail
  end.

End Json.
Import Json.

(** The file [convert_csv_to_json] writes, and the count it returns. *)
Definition convert_csv_to_json (table : list (list str))
  : result (list Byte.byte * nat) :=
  records <- read_records table ;;
  Ok (write_json records, length records).

(** ** The sqlite3 module, as far as the Loader uses it *)

Module Sql.

Inductive sqlval : Type :=
| SqlNull
| SqlInt (n : nat)
| SqlText (s : str).

(** A column of a CREATE TABLE statement. *)
Record column : Type := {
  col_name : str;
  col_type : str;
  not_null : bool;
  autoincrement : bool
}.

Definition text_col (name : str) : column :=
  {| col_name := name; col_type := lit "TEXT";
     not_null := false; autoincrement := false |}.

Definition text_not_null (name : str) : column :=
  {| col_name := name; col_type := lit "TEXT";
     not_null := true; autoincrement := false |}.

Definition id_col (name : str) : column :=
  {| col_name := name; col_type := lit "INTEGER";
     not_null := false; autoincrement := true |}.

Record table : Type := {
  tbl_name : str;
  tbl_cols : list column
}.

Record index : Type := {
  idx_name : str;
  idx_table : str;
  idx_col : str
}.

(** A stored row: column name to value, in the order of the table. *)
Definition row := list (str * sqlval).

(** The content of a database file: the catalog, the rows of the
    medicines table and the AUTOINCREMENT counter. *)
Record database : Type := {
  tables : list table;
  indexes : list index;
  rows : list row;
  last_id : nat
}.

Definition empty_database : database :=
  {| tables := []; indexes := []; rows := []; last_id := 0 |}.

(** What reaches the store through a connection. [OpCommit n] is a
    COMMIT that ends a transaction of [n] inserted rows. *)
Inductive op : Type :=
| OpConnect
| OpCreateTable (name : str)
| OpCreateIndex (name : str)
| OpInsert
| OpCommit (n : nat)
| OpClose.

(** A connection: what is durable, what the connection sees, whether a
    transaction is open, the calls of [commit()] so far, and the
    operations sent to the store. *)
Record conn : Type := {
  committed : database;
  current : database;
  in_txn : bool;
  commit_calls : nat;
  trace : list op
}.

(** Calls on a connection: a state and exception monad. *)
Definition M (A : Type) : Type := conn -> result A * conn.

Definition ret {A} (a : A) : M A := fun c => (Ok a, c).

Definition raise {A} (e : exn) : M A := fun c => (Raise e, c).

Definition mbind {A B} (m : M A) (f : A -> M B) : M B :=
  fun c =>
    match m c with
    | (Ok a, c') => f a c'
    | (Raise e, c') => (Raise e, c')
    end.

Definition log (o : op) : M unit :=
  fun c => (Ok tt,
            {| committed := committed c; current := current c;
               in_txn := in_txn c; commit_calls := commit_calls c;
               trace := trace c ++ [o] |}).

(** A schema statement runs in autocommit: it changes the file at once. *)
Definition ddl (f : database -> database) : M unit :=
  fun c => (Ok tt,
            {| committed := f (committed c); current := f (current c);
               in_txn := in_txn c; commit_calls := commit_calls c;
               trace := trace c |}).

Definition get_current : M database := fun c => (Ok (current c), c).

End Sql.
Import Sql.

Notation "x <~ c ;; k" := (mbind c (fun x => k))
  (at level 61, c at next level, right associativity).
Notation "c ;;; k" := (mbind c (fun _ => k))
  (at level 61, right associativity).

Module Store.

Definition find_table (name : str) (db : database) : option table :=
  find (fun t => Str.eqb (tbl_name t) name) (tables db).

Definition has_index (name : str) (db : database) : bool :=
  existsb (fun i => Str.eqb (idx_name i) name) (indexes db).

Definition has_column (name : str) (t : table) : bool :=
  existsb (fun c => Str.eqb (col_name c) name) (tbl_cols t).

Definition add_table (t : table) (db : database) : database :=
  {| tables := tables db ++ [t]; indexes := indexes db;
     rows := rows db; last_id := last_id db |}.

Definition add_index (i : index) (db : database) : database :=
  {| tables := tables db; indexes := indexes db ++ [i];
     rows := rows db; last_id := last_id db |}.

(** CREATE TABLE IF NOT EXISTS: nothing to do when the table is there;
    an index of that name is an error. *)
Definition create_table_if_not_exists (t : table) : M unit :=
  log (OpCreateTable (tbl_name t)) ;;;
  db <~ get_current ;;
  match find_table (tbl_name t) db with
  | Some _ => ret tt
  | None =>
      if has_index (tbl_name t) db then raise OperationalError
      else ddl (add_table t)
  end.

(** CREATE INDEX IF NOT EXISTS name ON table(column): the table has to
    exist, no table may have the name of the index, an index of that name
    makes the statement do nothing, and the column has to exist. *)
Definition create_index_if_not_exists (i : index) : M unit :=
  log (OpCreateIndex (idx_name i)) ;;;
  db <~ get_current ;;
  match find_table (idx_table i) db with
  | None => raise OperationalError
  | Some t =>
      match find_table (idx_name i) db with
      | Some _ => raise OperationalError
      | None =>
          if has_index (idx_name i) db then ret tt
          else if has_column (idx_col i) t then ddl (add_index i)
          else raise OperationalError
      end
  end.

(** The row an INSERT builds: the AUTOINCREMENT column takes the new id,
    a listed column its parameter, any other column NULL. *)
Definition build_row (t : table) (cols : list str) (params : list sqlval)
    (id : nat) : row :=
  map (fun c =>
         (col_name c,
          match dict_find (combine cols params) (col_name c) with
          | Some v => v
          | None => if autoincrement c then SqlInt id else SqlNull
          end))
      (tbl_cols t).

Definition violates_not_null (t : table) (r : row) : bool :=
  existsb (fun c =>
             not_null c &&
             match dict_find r (col_name c) with
             | Some SqlNull => true
             | _ => false
             end)
          (tbl_cols t).

(** INSERT INTO table (cols) VALUES (params), through [cursor.execute]:
    the module opens a transaction before the statement. *)
Definition insert_into (name : str) (cols : list str) (params : list sqlval)
  : M unit :=
  fun c =>
    let c1 := {| committed := committed c; current := current c;
                 in_txn := true; commit_calls := commit_calls c;
                 trace := trace c ++ [OpInsert] |} in
    match find_table name (current c) with
    | None => (Raise OperationalError, c1)
    | Some t =>
        if negb (forallb (fun k => has_column k t) cols)
        then (Raise OperationalError, c1)
        else
          let db := current c in
          let id := S (last_id db) in
          let r := build_row t cols params id in
          if violates_not_null t r then (Raise IntegrityError, c1)
          else (Ok tt,
                {| committed := committed c;
                   current := {| tables := tables db; indexes := indexes db;
                                 rows := rows db ++ [r]; last_id := id |};
                   in_txn := true; commit_calls := commit_calls c;
                   trace := trace c1 |})
    end.

(** [conn.commit()]: ends the open transaction; with none open it does
    nothing to the store. *)
Definition commit : M unit :=
  fun c =>
    if in_txn c then
      (Ok tt,
       {| committed := current c; current := current c; in_txn := false;
          commit_calls := S (commit_calls c);
          trace := trace c
                   ++ [OpCommit (length (rows (current c))
                                 - length (rows (committed c)))] |})
    else
      (Ok tt,
       {| committed := committed c; current := current c; in_txn := false;
          commit_calls := S (commit_calls c); trace := trace c |}).

(** [conn.close()]: what was not committed is lost. *)
Definition close : M unit :=
  fun c =>
    (Ok tt,
     {| committed := committed c; current := committed c; in_txn := false;
        commit_calls := commit_calls c; trace := trace c ++ [OpClose] |}).

(** [sqlite3.connect(db_path)]: opens the file, a new one when there is
    none. *)
Definition connect (file : option database) : conn :=
  let db := match file with
            | Some db => db
            | None => empty_database
            end in
  {| committed := db; current := db; in_txn := false;
     commit_calls := 0; trace := [OpConnect] |}.

End Store.
Import Store.

Fixpoint forM {A} (l : list A) (f : A -> M unit) : M unit :=
  match l with
  | [] => ret tt
  | a :: r => f a ;;; forM r f
  end.

(** ** The Loader: migrate-medicines-to-sqlite.py *)

Definition medicines : str := lit "medicines".

(** The CREATE TABLE statement of [create_database]. *)
Definition medicines_table : table :=
  {| tbl_name := medicines;
     tbl_cols := [
    id_col (lit "id");
    text_col (lit "registratienummer");
    text_col (lit "soort");
    text_not_null (lit "productnaam");
    text_col (lit "inschrijvingsdatum");
    text_col (lit "handelsvergunninghouder");
    text_col (lit "afleverstatus");
    text_col (lit "farmaceutischevorm");
    text_col (lit "potentie");
    text_col (lit "procedurenummer");
    text_col (lit "toedieningsweg");
    text_col (lit "aanvullendemonitoring");
    text_col (lit "smpc_filenaam");
    text_col (lit "bijsluiter_filenaam");
    text_col (lit "par_filenaam");
    text_col (lit "spar_filenaam");
    text_col (lit "armm_filenaam");
    text_col (lit "smpc_wijzig_datum");
    text_col (lit "bijsluiter_wijzig_datum");
    text_col (lit "atc");
    text_col (lit "werkzamestoffen");
    text_col (lit "hulpstoffen");
    text_col (lit "productdetail_link");
    text_col (lit "nieuws_links");
    text_col (lit "nieuws_link_datums");
    text_col (lit "referentie");
    text_col (lit "smpc_vorige_versie");
    text_col (lit "smpc_vorige_vorige_versie") ] |}.

Definition idx_productnaam : index :=
  {| idx_name := lit "idx_productnaam"; idx_table := medicines;
     idx_col := lit "productnaam" |}.

Definition idx_werkzamestoffen : index :=
  {| idx_name := lit "idx_werkzamestoffen"; idx_table := medicines;
     idx_col := lit "werkzamestoffen" |}.

Definition idx_farmaceutischevorm : index :=
  {| idx_name := lit "idx_farmaceutischevorm"; idx_table := medicines;
     idx_col := lit "farmaceutischevorm" |}.

(** The statements of [create_database] on its connection. *)
Definition create_schema : M unit :=
  create_table_if_not_exists medicines_table ;;;
  create_index_if_not_exists idx_productnaam ;;;
  create_index_if_not_exists idx_werkzamestoffen ;;;
  create_index_if_not_exists idx_farmaceutischevorm ;;;
  commit.

(** [create_database(db_path)], for the file at [db_path]. *)
Definition create_database (file : option database) : result unit * conn :=
  create_schema (connect file).

(** The column list of the INSERT statement. *)
Definition insert_columns : list str := [
    lit "registratienummer";
    lit "soort";
    lit "productnaam";
    lit "inschrijvingsdatum";
    lit "handelsvergunninghouder";
    lit "afleverstatus";
    lit "farmaceutischevorm";
    lit "potentie";
    lit "procedurenummer";
    lit "toedieningsweg";
    lit "aanvullendemonitoring";
    lit "smpc_filenaam";
    lit "bijsluiter_filenaam";
    lit "par_filenaam";
    lit "spar_filenaam";
    lit "armm_filenaam";
    lit "smpc_wijzig_datum";
    lit "bijsluiter_wijzig_datum";
    lit "atc";
    lit "werkzamestoffen";
    lit "hulpstoffen";
    lit "productdetail_link";
    lit "nieuws_links";
    lit "nieuws_link_datums";
    lit "referentie";
    lit "smpc_vorige_versie";
    lit "smpc_vorige_vorige_versie" ].

(** The keys of the [medicine.get(key, '')] calls, in the order of the
    parameter tuple. *)
Definition param_keys : list str := [
    lit "registratienummer";
    lit "soort";
    lit "productnaam";
    lit "inschrijvingsdatum";
    lit "handelsvergunninghouder";
    lit "afleverstatus";
    lit "farmaceutischevorm";
    lit "potentie";
    lit "procedurenummer";
    lit "toedieningsweg";
    lit "aanvullendemonitoring";
    lit "smpc_filenaam";
    lit "bijsluiter_filenaam";
    lit "par_filenaam";
    lit "spar_filenaam";
    lit "armm_filenaam";
    lit "smpc_wijzig_datum";
    lit "bijsluiter_wijzig_datum";
    lit "atc";
    lit "werkzamestoffen";
    lit "hulpstoffen";
    lit "productdetail_link";
    lit "nieuws_links";
    lit "nieuws_link_datums";
    lit "referentie";
    lit "smpc_vorige_versie";
    lit "smpc_vorige_vorige_versie" ].

(** A value of a Record as a statement parameter: [None] binds NULL. *)
Definition bind_value (v : option str) : sqlval :=
  match v with
  | Some s => SqlText s
  | None => SqlNull
  end.

(** The parameter tuple of the INSERT for one medicine. *)
Definition insert_params (medicine : record) : list sqlval :=
  map (fun key => bind_value (dict_get medicine key (Some []))) param_keys.

Definition insert_medicine (medicine : record) : M unit :=
  insert_into medicines insert_columns (insert_params medicine).

Definition batch_size : nat := 1000.

(** [range(start, stop, step)] for a positive step. *)
Fixpoint range_from (fuel start stop step : nat) : list nat :=
  match fuel with
  | 0 => []
  | S fuel' =>
      if start <? stop
      then start :: range_from fuel' (start + step) stop step
      else []
  end.

Definition range (start stop step : nat) : list nat :=
  range_from stop start stop step.

(** [l[i:j]] *)
Definition slice {A} (l : list A) (i j : nat) : list A :=
  firstn (j - i) (skipn i l).

(** The body of the batch loop for the batch that starts at [i]. *)
Definition insert_batch (meds : list record) (i : nat) : M unit :=
  forM (slice meds i (i + batch_size)) insert_medicine ;;; commit.

(** The files the Loader works on and the operations its run sent to the
    store. *)
Record world : Type := {
  json_file : option (list record);
  db_file : option database;
  store_ops : list op
}.

Inductive outcome : Type :=
| Returned (w : world)
| Exited (status : nat) (w : world)
| Raised (e : exn) (w : world).

(** [migrate_json_to_sqlite(json_path, db_path)]; [json_file] is the
    document at [json_path] as [json.load] returns it, [None] when the
    path does not exist. *)
Definition migrate_json_to_sqlite (w : world) : outcome :=
  match json_file w with
  | None => Exited 1 w
  | Some meds =>
      let run :=
        create_schema ;;;
        forM (range 0 (length meds) batch_size) (insert_batch meds) ;;;
        close in
      match run (connect (db_file w)) with
      | (r, c) =>
          let w' := {| json_file := json_file w;
                       db_file := Some (committed c);
                       store_ops := store_ops w ++ trace c |} in
          match r with
          | Ok _ => Returned w'
          | Raise e => Raised e w'
          end
      end
  end.

(** ** A sample table *)

Definition sample_header : list str :=
  [lit "RegistratieNummer"; lit "Soort"; lit "ProductNaam"].

Definition sample_rows : list (list str) :=
  [ [lit "REG123"; lit " Tablet "; lit "Aspirin 500mg"];
    [lit "REG9"; lit ""] ].


Definition sample_records : list record :=
  match read_records (sample_header :: sample_rows) with
  | Ok recs => recs
  | Raise _ => []
  end.

(** ** Auxiliary definitions for the Loader *)

(** The connection after a successful INSERT of row [r] with id [id]. *)
Definition with_row (c : conn) (r : row) (id : nat) : conn :=
  {| committed := committed c;
     current := {| tables := tables (current c); indexes := indexes (current c);
                   rows := rows (current c) ++ [r]; last_id := id |};
     in_txn := true; commit_calls := commit_calls c;
     trace := trace c ++ [OpInsert] |}.

(** The connection after an INSERT that raised. *)
Definition with_failed_insert (c : conn) : conn :=
  {| committed := committed c; current := current c;
     in_txn := true; commit_calls := commit_calls c;
     trace := trace c ++ [OpInsert] |}.

(** The row the Loader's INSERT builds for a medicine. *)
Definition medicine_row (medicine : record) (id : nat) : row :=
  build_row medicines_table insert_columns (insert_params medicine) id.

(** The value the Loader stores for a field of a Record. *)
Definition stored_value (medicine : record) (name : str) : sqlval :=
  match dict_find medicine name with
  | None => SqlText []
  | Some (Some s) => SqlText s
  | Some None => SqlNull
  end.

Definition productnaam : str := lit "productnaam".

(** The connection has the medicines table of [create_database]. *)
Definition has_schema (c : conn) : Prop :=
  find_table medicines (current c) = Some medicines_table.

(** The names of the 27 columns of the schema after the key. *)
Definition data_columns : list str := map col_name (tl (tbl_cols medicines_table)).

(** A connection to a new store after [create_database], and the first
    sample Record. *)
Definition sample_conn : conn := snd (create_database None).

Definition sample_medicine : record := nth 0 sample_records [].

(** A Record whose product name is null, one without a product name, and
    one with a null registration number. *)
Definition null_name_medicine : record :=
  [(lit "registratienummer", Some (lit "REG1")); (productnaam, None)].

Definition nameless_medicine : record :=
  [(lit "registratienummer", Some (lit "REG2"))].

Definition null_number_medicine : record :=
  [(lit "registratienummer", None); (productnaam, Some (lit "Aspirin"))].

(** A table whose product-name header cell has a leading blank. *)
Definition padded_header : list str :=
  [lit "RegistratieNummer"; lit " ProductNaam"].

Definition padded_row : list str := [lit "REG123"; lit "Aspirin 500mg"].

Definition padded_record : record :=
  match clean_row (dictreader_row padded_header padded_row) with
  | Ok rec => rec
  | Raise _ => []
  end.

(** A run of the Loader with no input document and no store. *)
Definition missing_input_world : world :=
  {| json_file := None; db_file := None; store_ops := [] |}.

(** The commits among the operations sent to the store, with the number
    of rows each covers. *)
Definition commit_sizes (ops : list op) : list nat :=
  flat_map (fun o => match o with
                     | OpCommit n => [n]
                     | _ => []
                     end) ops.

(** The connection after operation [o] was sent to the store. *)
Definition with_op (c : conn) (o : op) : conn :=
  {| committed := committed c; current := current c; in_txn := in_txn c;
     commit_calls := commit_calls c; trace := trace c ++ [o] |}.

(** No transaction is open and nothing is uncommitted. *)
Definition synced (c : conn) : Prop :=
  committed c = current c /\ in_txn c = false.

(** The names of a catalog are not repeated. *)
Definition catalog_wf (db : database) : Prop :=
  NoDup (map tbl_name (tables db)) /\ NoDup (map idx_name (indexes db)).

Definition count_tables (name : str) (db : database) : nat :=
  length (filter (fun t => Str.eqb (tbl_name t) name) (tables db)).

Definition count_indexes (name : str) (db : database) : nat :=
  length (filter (fun i => Str.eqb (idx_name i) name) (indexes db)).

(** What a successful CREATE INDEX IF NOT EXISTS leaves behind. *)
Definition index_ready (i : index) (db : database) : Prop :=
  find_table (idx_table i) db <> None /\
  find_table (idx_name i) db = None /\
  has_index (idx_name i) db = true.

(** The connection after the INSERT of a medicine that did not raise. *)
Definition inserted (c : conn) (medicine : record) : conn :=
  with_row c (medicine_row medicine (S (last_id (current c))))
           (S (last_id (current c))).

(** A Record the medicines table accepts: its product name is not null. *)
Definition insertable (medicine : record) : Prop :=
  dict_find medicine productnaam <> Some None.

(** The number of Records in the batch that starts at [i]. *)
Definition batch_length (meds : list record) (i : nat) : nat :=
  length (slice meds i (i + batch_size)).

(** A run of the Loader on 2500 Records and no store. *)
Definition world_2500 : world :=
  {| json_file := Some (repeat sample_medicine 2500);
     db_file := None; store_ops := [] |}.

(** ** The Normalizer's entry point *)

(** The two files of [main]: the table at metadata.csv as [csv.reader]
    yields it, and the bytes of medicines.json; [None] for a file that
    does not exist. *)
Record files : Type := {
  csv_file : option (list (list str));
  json_out : option (list Byte.byte)
}.

(** How [main] ends: it returns an exit status, with the Record it showed
    as a sample; an exception of the conversion leaves it; or reading the
    written document back fails. *)
Inductive main_outcome : Type :=
| MainReturned (status : nat) (fs : files) (sample : option record)
| MainRaised (e : exn) (fs : files)
| MainDecodeError (fs : files).

(** [main()] of convert-metadata-to-json.py.  The output file is opened
    for writing after the loop over the rows has ended. *)
Definition main (fs : files) : main_outcome :=
  match csv_file fs with
  | None => MainReturned 1 fs None
  | Some table =>
      match convert_csv_to_json table with
      | Raise e => MainRaised e fs
      | Ok (file, count) =>
          let fs' := {| csv_file := csv_file fs; json_out := Some file |} in
          match read_json file with
          | None => MainDecodeError fs'
          | Some data => MainReturned 0 fs' (hd_error data)
          end
      end
  end.

(** The cells of a row under a header, [None] where the row has run
    out. *)
Definition cells (fieldnames row : list str) : list (option str) :=
  map Some row ++ repeat None (length fieldnames - length row).

(** The dict comprehension of the conversion loop on the items of a
    dict. *)
Definition clean_items (items : list (str * option str)) : record :=
  dict_of_items
    (map (fun kv => (lower (fst kv), clean_value (snd kv))) items).

(** A table with a row that has one cell too many. *)
Definition long_row_table : list (list str) :=
  [ [lit "a"; lit "b"]; [lit "1"; lit "2"]; [lit "1"; lit "2"; lit "3"] ].

(** A table with blank rows and a cell of blanks. *)
Definition blank_rows_table : list (list str) :=
  [ [lit "Naam"; lit "Soort"]; []; [lit " x "; lit "   "]; []; [lit "y"] ].

Definition blank_records : list record :=
  match read_records blank_rows_table with
  | Ok recs => recs
  | Raise _ => []
  end.

(** ** Further definitions for the Loader *)

(** The rows the Loader builds for a list of medicines when the last id
    handed out is [id]: consecutive ids, in the order of the list. *)
Fixpoint rows_from (id : nat) (meds : list record) : list row :=
  match meds with
  | [] => []
  | m :: r => medicine_row m (S id) :: rows_from (S id) r
  end.

(** The batches of the loop, in order. *)
Definition batches (meds : list record) : list (list record) :=
  map (fun i => slice meds i (i + batch_size))
      (range 0 (length meds) batch_size).

(** The rows of a store file, none when there is no file. *)
Definition file_rows (file : option database) : list row :=
  match file with
  | Some db => rows db
  | None => []
  end.

Definition file_last_id (file : option database) : nat :=
  match file with
  | Some db => last_id db
  | None => 0
  end.

(** A Record with a field the schema does not have. *)
Definition extra_field_medicine : record :=
  dict_set sample_medicine (lit "opmerking") (Some (lit "n.v.t.")).

(** A document of three Records, and the run of the Loader on it. *)
Definition three_medicines : list record :=
  [sample_medicine; nameless_medicine; null_number_medicine].

Definition world_three : world :=
  {| json_file := Some three_medicines; db_file := None; store_ops := [] |}.



(** Two states of a connection with the same rows, id counter and
    transaction state. *)
Definition data_kept (c c' : conn) : Prop :=
  in_txn c' = in_txn c /\
  rows (committed c') = rows (committed c) /\
  last_id (committed c') = last_id (committed c) /\
  rows (current c') = rows (current c) /\
  last_id (current c') = last_id (current c).

(** [l'] is [l] with rows added at the end. *)
Definition extends (l l' : list row) : Prop := exists ext, l' = l ++ ext.

(** What is committed is the beginning of what the connection sees. *)
Definition committed_first (c : conn) : Prop :=
  extends (rows (committed c)) (rows (current c)).

(** A call on a connection that only ever adds rows to the store. *)
Definition only_adds {A} (m : M A) : Prop :=
  forall c, committed_first c ->
    committed_first (snd (m c)) /\
    extends (rows (committed c)) (rows (committed (snd (m c)))).

(** * Properties *)

(** ** Strings *)

Lemma str_eqb_spec (a b : str) : reflect (a = b) (Str.eqb a b).
Proof.
  revert b; induction a as [|x a IH]; intros [|y b]; simpl;
    try (constructor; congruence).
  destruct (Ascii.eqb_spec x y) as [->|Hxy]; simpl.
  - destruct (IH b) as [->|Hab]; constructor; congruence.
  - constructor; congruence.
Qed.

Lemma str_eqb_refl (a : str) : Str.eqb a a = true.
Proof. destruct (str_eqb_spec a a); congruence. Qed.

Lemma str_eqb_eq (a b : str) : Str.eqb a b = true -> a = b.
Proof. destruct (str_eqb_spec a b); congruence. Qed.

Lemma str_eqb_neq (a b : str) : a <> b -> Str.eqb a b = false.
Proof. destruct (str_eqb_spec a b); congruence. Qed.

Ltac each_ascii c := destruct c as [[] [] [] [] [] [] [] []].

Lemma lower_char_not_upper (c : ascii) : is_upper (lower_char c) = false.
Proof. each_ascii c; reflexivity. Qed.

Lemma lower_char_space (c : ascii) : is_space c = true -> lower_char c = c.
Proof. each_ascii c; intros H; try reflexivity; discriminate H. Qed.

Lemma lower_char_is_space (c : ascii) : is_space (lower_char c) = is_space c.
Proof. each_ascii c; reflexivity. Qed.

Lemma lower_is_lowercase (s : str) : is_lowercase (lower s).
Proof.
  unfold is_lowercase, lower. apply Forall_forall. intros c Hc.
  apply in_map_iff in Hc. destruct Hc as [c0 [<- _]].
  apply lower_char_not_upper.
Qed.

Lemma lower_fixes_lowercase (s : str) : is_lowercase s -> lower s = s.
Proof.
  induction 1 as [|c s Hc _ IH]; simpl; [reflexivity|].
  rewrite IH. unfold lower_char. rewrite Hc. reflexivity.
Qed.

Lemma lower_idempotent (s : str) : lower (lower s) = lower s.
Proof. apply lower_fixes_lowercase, lower_is_lowercase. Qed.

Lemma lower_rev (s : str) : lower (rev s) = rev (lower s).
Proof. unfold lower. apply map_rev. Qed.

Lemma starts_with_space_lower (s : str) :
  starts_with_space (lower s) = starts_with_space s.
Proof. destruct s as [|c s]; simpl; [reflexivity|apply lower_char_is_space]. Qed.

Lemma padded_lower (s : str) : padded (lower s) = padded s.
Proof.
  unfold padded, ends_with_space.
  rewrite <- lower_rev, !starts_with_space_lower. reflexivity.
Qed.

(** A stripped string has no whitespace at either end. *)
Lemma lstrip_starts (s : str) : starts_with_space (lstrip s) = false.
Proof.
  induction s as [|c s IH]; simpl; [reflexivity|].
  destruct (is_space c) eqn:E; [exact IH|simpl; exact E].
Qed.

Lemma lstrip_suffix (s : str) : exists p, s = p ++ lstrip s /\ forallb is_space p = true.
Proof.
  induction s as [|c s [p [Hp Hs]]]; simpl.
  - exists []. split; reflexivity.
  - destruct (is_space c) eqn:E.
    + exists (c :: p). simpl. rewrite E, Hs. split; [congruence|reflexivity].
    + exists []. split; reflexivity.
Qed.

Lemma lstrip_fixed (s : str) : starts_with_space s = false -> lstrip s = s.
Proof. destruct s as [|c s]; simpl; [reflexivity|]. intros ->. reflexivity. Qed.

(** ** Dictionaries *)

Section DictFacts.

Variable V : Type.
Implicit Types (d : dict V) (k : str) (v : V).

Lemma dict_find_set d k v k' :
  dict_find (dict_set d k v) k' =
  if Str.eqb k k' then Some v else dict_find d k'.
Proof.
  induction d as [|[k0 v0] d IH]; simpl.
  - reflexivity.
  - destruct (str_eqb_spec k0 k) as [->|Hk0]; simpl.
    + destruct (Str.eqb k k'); reflexivity.
    + rewrite IH. destruct (str_eqb_spec k0 k') as [->|Hk0'].
      * rewrite (str_eqb_neq (not_eq_sym Hk0)). reflexivity.
      * reflexivity.
Qed.

Lemma keys_dict_set d k v :
  keys (dict_set d k v) = if existsb (Str.eqb k) (keys d) then keys d
                          else keys d ++ [k].
Proof.
  unfold keys. induction d as [|[k0 v0] d IH]; simpl; [reflexivity|].
  destruct (str_eqb_spec k0 k) as [->|Hk0]; simpl.
  - rewrite str_eqb_refl. reflexivity.
  - rewrite (str_eqb_neq (not_eq_sym Hk0)). simpl. rewrite IH.
    destruct (existsb (Str.eqb k) (map fst d)); reflexivity.
Qed.

Lemma existsb_eqb_In k (l : list str) :
  existsb (Str.eqb k) l = true <-> In k l.
Proof.
  rewrite existsb_exists. split.
  - intros [x [Hx E]]. apply str_eqb_eq in E. subst. exact Hx.
  - intros H. exists k. split; [exact H|apply str_eqb_refl].
Qed.

Lemma wf_dict_set d k v : wf_dict d -> wf_dict (dict_set d k v).
Proof.
  unfold wf_dict. intros H. rewrite keys_dict_set.
  destruct (existsb (Str.eqb k) (keys d)) eqn:E; [exact H|].
  apply NoDup_app; [exact H|repeat constructor; intros []|].
  intros x Hx [<-|[]].
  apply existsb_eqb_In in Hx. congruence.
Qed.

Lemma fold_dict_set_wf (items : list (str * V)) d :
  wf_dict d ->
  wf_dict (fold_left (fun d kv => dict_set d (fst kv) (snd kv)) items d).
Proof.
  revert d; induction items as [|[k v] items IH]; simpl; intros d H.
  - exact H.
  - apply IH, wf_dict_set, H.
Qed.

Lemma wf_dict_of_items (items : list (str * V)) : wf_dict (dict_of_items items).
Proof. apply fold_dict_set_wf. constructor. Qed.

Lemma dict_of_items_snoc (items : list (str * V)) k v :
  dict_of_items (items ++ [(k, v)]) = dict_set (dict_of_items items) k v.
Proof. unfold dict_of_items. rewrite fold_left_app. reflexivity. Qed.

(** Looking a key up in [dict(items)] finds the last item with that key. *)
Lemma dict_find_of_items (items : list (str * V)) k :
  dict_find (dict_of_items items) k = dict_find (rev items) k.
Proof.
  induction items as [|[k0 v0] items IH] using rev_ind; [reflexivity|].
  rewrite dict_of_items_snoc, dict_find_set, rev_app_distr. simpl.
  rewrite IH. reflexivity.
Qed.

Lemma dict_set_absent d k v :
  ~ In k (keys d) -> dict_set d k v = d ++ [(k, v)].
Proof.
  induction d as [|[k0 v0] d IH]; simpl; intros H; [reflexivity|].
  rewrite str_eqb_neq by tauto. rewrite IH by tauto. reflexivity.
Qed.

(** [dict] of the items of a dictionary is that dictionary. *)
Lemma dict_of_items_wf d : wf_dict d -> dict_of_items d = d.
Proof.
  unfold wf_dict.
  induction d as [|[k v] d IH] using rev_ind; intros H; [reflexivity|].
  unfold keys in H. rewrite map_app in H. simpl in H.
  rewrite dict_of_items_snoc.
  apply NoDup_remove in H. rewrite app_nil_r in H. destruct H as [H1 H2].
  rewrite IH by exact H1. apply dict_set_absent. exact H2.
Qed.

Lemma in_dict_set d k v k' v' :
  In (k', v') (dict_set d k v) -> (k', v') = (k, v) \/ In (k', v') d.
Proof.
  induction d as [|[k0 v0] d IH]; simpl.
  - intros [H|[]]. left. congruence.
  - destruct (str_eqb_spec k0 k) as [->|Hk0]; simpl.
    + intros [H|H]; [left; congruence|right; right; exact H].
    + intros [H|H]; [right; left; exact H|].
      destruct (IH H) as [E|E]; [left; exact E|right; right; exact E].
Qed.

Lemma in_dict_of_items (items : list (str * V)) k v :
  In (k, v) (dict_of_items items) -> In (k, v) items.
Proof.
  induction items as [|[k0 v0] items IH] using rev_ind; [intros []|].
  rewrite dict_of_items_snoc. intros H. apply in_dict_set in H.
  apply in_or_app. destruct H as [H|H].
  - right. left. congruence.
  - left. apply IH, H.
Qed.

Lemma dict_find_Some_in d k v : dict_find d k = Some v -> In (k, v) d.
Proof.
  induction d as [|[k0 v0] d IH]; simpl; [discriminate|].
  destruct (str_eqb_spec k0 k) as [->|Hk0].
  - intros [= ->]. left. reflexivity.
  - intros H. right. apply IH, H.
Qed.

Lemma dict_find_None d k : dict_find d k = None <-> ~ In k (keys d).
Proof.
  induction d as [|[k0 v0] d IH]; simpl; [tauto|].
  destruct (str_eqb_spec k0 k) as [->|Hk0].
  - split; [discriminate|tauto].
  - rewrite IH. tauto.
Qed.

(** A key whose items all carry one value is bound to that value. *)
Lemma dict_find_unique d k v :
  In (k, v) d -> (forall v', In (k, v') d -> v' = v) -> dict_find d k = Some v.
Proof.
  intros Hin Huniq. destruct (dict_find d k) as [v'|] eqn:E.
  - f_equal. apply Huniq, dict_find_Some_in, E.
  - apply dict_find_None in E. exfalso. apply E.
    unfold keys. apply in_map_iff. exists (k, v). split; [reflexivity|exact Hin].
Qed.

End DictFacts.

(** ** The Normalizer *)

Lemma mapM_Forall2 {A B} (f : A -> result B) (l : list A) (bs : list B) :
  mapM f l = Ok bs <-> Forall2 (fun a b => f a = Ok b) l bs.
Proof.
  revert bs; induction l as [|a l IH]; simpl; intros bs.
  - split.
    + intros [= <-]. constructor.
    + intros H. inversion H. reflexivity.
  - split.
    + destruct (f a) as [b|e] eqn:Ea; simpl; [|discriminate].
      destruct (mapM f l) as [bs'|e] eqn:El; simpl; [|discriminate].
      intros [= <-]. constructor; [exact Ea|]. apply IH. reflexivity.
    + intros H. inversion H as [|a' b l' bs' Hab Hl]; subst.
      rewrite Hab. simpl. apply IH in Hl. rewrite Hl. reflexivity.
Qed.

Lemma Forall2_nth_error {A B} (R : A -> B -> Prop) l bs i a b :
  Forall2 R l bs -> nth_error l i = Some a -> nth_error bs i = Some b -> R a b.
Proof.
  intros H. revert i. induction H as [|x y l bs Hxy _ IH]; intros [|i]; simpl;
    try discriminate.
  - intros [= ->] [= ->]. exact Hxy.
  - apply IH.
Qed.

Lemma fields_row_items (fieldnames row : list str) :
  length row <= length fieldnames ->
  dictreader_row fieldnames row =
  {| fields := dict_of_items (row_items fieldnames row); rest := None |}.
Proof.
  intros Hlen. unfold dictreader_row.
  destruct (Nat.ltb_spec (length fieldnames) (length row)) as [H|_]; [lia|].
  f_equal. unfold row_items, dict_of_items. rewrite fold_left_app.
  generalize (fold_left (fun d kv => dict_set d (fst kv) (snd kv))
                        (combine fieldnames (map Some row)) []).
  induction (skipn (length row) fieldnames) as [|k l IH]; simpl; intros d.
  - reflexivity.
  - apply IH.
Qed.

Lemma rest_long_row (fieldnames row : list str) :
  length fieldnames < length row ->
  rest (dictreader_row fieldnames row) = Some (skipn (length fieldnames) row).
Proof.
  intros H. unfold dictreader_row.
  destruct (Nat.ltb_spec (length fieldnames) (length row)); [reflexivity|lia].
Qed.

(** Each item binds a header cell to the cell of the row at that position
    ([nth_error] is [None] where the row has run out). *)
Lemma in_row_items (fieldnames row : list str) k v :
  length row <= length fieldnames ->
  (In (k, v) (row_items fieldnames row) <->
   exists j, nth_error fieldnames j = Some k /\ nth_error row j = v).
Proof.
  unfold row_items. revert fieldnames.
  induction row as [|s row IH]; intros fieldnames Hlen.
  - simpl. rewrite combine_nil. simpl. rewrite in_map_iff. split.
    + intros [k0 [[= -> <-] Hk]]. apply In_nth_error in Hk.
      destruct Hk as [j Hj]. exists j. split; [exact Hj|].
      destruct j; reflexivity.
    + intros [j [Hj Hv]]. exists k. split.
      * f_equal. destruct j; simpl in Hv; congruence.
      * eapply nth_error_In, Hj.
  - destruct fieldnames as [|h fieldnames]; simpl in Hlen; [lia|].
    simpl. rewrite (IH fieldnames) by lia. split.
    + intros [[= -> <-]|[j [Hj Hv]]].
      * exists 0. split; reflexivity.
      * exists (S j). split; assumption.
    + intros [[|j] [Hj Hv]]; simpl in Hj, Hv.
      * left. congruence.
      * right. exists j. split; assumption.
Qed.

Lemma clean_row_ok (fieldnames row : list str) (rec : record) :
  clean_row (dictreader_row fieldnames row) = Ok rec ->
  length row <= length fieldnames /\
  rec = dict_of_items
          (map (fun kv => (lower (fst kv), clean_value (snd kv)))
               (dict_of_items (row_items fieldnames row))).
Proof.
  intros H.
  destruct (Nat.le_gt_cases (length row) (length fieldnames)) as [Hle|Hgt].
  - split; [exact Hle|].
    rewrite (fields_row_items _ _ Hle) in H. unfold clean_row in H. simpl in H.
    congruence.
  - unfold clean_row in H. rewrite (rest_long_row _ _ Hgt) in H. discriminate.
Qed.

Lemma clean_row_short (fieldnames row : list str) :
  length row <= length fieldnames ->
  exists rec, clean_row (dictreader_row fieldnames row) = Ok rec.
Proof.
  intros Hle. rewrite (fields_row_items _ _ Hle). unfold clean_row. simpl.
  eexists. reflexivity.
Qed.

(** A row longer than the header stops the conversion. *)
Lemma clean_row_long (fieldnames row : list str) :
  length fieldnames < length row ->
  clean_row (dictreader_row fieldnames row) = Raise AttributeError.
Proof.
  intros H. unfold clean_row. rewrite (rest_long_row _ _ H). reflexivity.
Qed.

Lemma read_records_wf (table : list (list str)) (recs : list record) :
  read_records table = Ok recs -> Forall (@wf_dict _) recs.
Proof.
  destruct table as [|fieldnames rows]; simpl.
  - intros [= <-]. constructor.
  - intros H. apply mapM_Forall2 in H.
    induction H as [|row rec l recs' Hrow _ IH]; constructor; [|exact IH].
    apply clean_row_ok in Hrow. destruct Hrow as [_ ->].
    apply wf_dict_of_items.
Qed.

Lemma data_rows_valid fieldnames rows :
  valid_table fieldnames rows -> data_rows rows = rows.
Proof.
  unfold data_rows. induction 1 as [|row rows [Hne _] _ IH]; simpl.
  - reflexivity.
  - destruct row; [congruence|]. simpl. rewrite IH. reflexivity.
Qed.

(** C3: a valid table with N data rows after the header is converted
    without error into exactly N Records, the i-th Record being the one
    built from the i-th data row. *)
Theorem read_records_one_per_row (fieldnames : list str) (rows : list (list str)) :
  valid_table fieldnames rows ->
  exists recs,
    read_records (fieldnames :: rows) = Ok recs /\
    length recs = length rows /\
    forall i row, nth_error rows i = Some row ->
      exists rec, nth_error recs i = Some rec /\
                  clean_row (dictreader_row fieldnames row) = Ok rec.
Proof.
  intros Hvalid. simpl. rewrite (data_rows_valid Hvalid).
  induction Hvalid as [|row rows [_ Hlen] _ [recs [Hrecs [Hn Hnth]]]].
  - exists []. repeat split. intros [|i] row; discriminate.
  - destruct (clean_row_short _ _ Hlen) as [rec Hrec].
    exists (rec :: recs). simpl. rewrite Hrec, Hrecs. simpl.
    repeat split; [congruence|].
    intros [|i] row'; simpl.
    + intros [= <-]. exists rec. split; [reflexivity|exact Hrec].
    + apply Hnth.
Qed.

Lemma sample_valid : valid_table sample_header sample_rows.
Proof.
  repeat constructor; simpl; try lia; discriminate.
Qed.

Lemma read_records_one_per_row_witness :
  exists recs,
    read_records (sample_header :: sample_rows) = Ok recs /\
    length recs = length sample_rows /\
    forall i row, nth_error sample_rows i = Some row ->
      exists rec, nth_error recs i = Some rec /\
                  clean_row (dictreader_row sample_header row) = Ok rec.
Proof.
  apply (read_records_one_per_row sample_valid).
Defined.

(** Blank rows are not data rows: DictReader passes over them. *)
Lemma read_records_skips_blank (fieldnames : list str) (rows1 rows2 : list (list str)) :
  read_records (fieldnames :: rows1 ++ [] :: rows2) =
  read_records (fieldnames :: rows1 ++ rows2).
Proof.
  simpl. unfold data_rows. rewrite !filter_app. reflexivity.
Qed.

(** What [strip] returns: the string without a whitespace prefix and a
    whitespace suffix, and with no whitespace left at either end. *)
Lemma strip_spec (s : str) :
  exists p q, s = p ++ strip s ++ q /\
              forallb is_space p = true /\ forallb is_space q = true /\
              padded (strip s) = false.
Proof.
  unfold strip, rstrip.
  destruct (lstrip_suffix s) as [p [Hp Hps]].
  destruct (lstrip_suffix (rev (lstrip s))) as [q [Hq Hqs]].
  exists p, (rev q).
  assert (Ht : lstrip s = rev (lstrip (rev (lstrip s))) ++ rev q).
  { rewrite <- rev_app_distr, <- Hq, rev_involutive. reflexivity. }
  split; [|split; [|split]].
  - rewrite <- Ht. exact Hp.
  - exact Hps.
  - rewrite forallb_forall in *. intros c Hc. apply Hqs, in_rev, Hc.
  - unfold padded, ends_with_space. rewrite rev_involutive, lstrip_starts.
    rewrite orb_false_r.
    pose proof (lstrip_starts s) as Hs. rewrite Ht in Hs.
    destruct (rev (lstrip (rev (lstrip s)))); [reflexivity|exact Hs].
Qed.

Lemma clean_value_nonempty (s : str) :
  s <> [] -> clean_value (Some s) = Some (strip s).
Proof. destruct s; [congruence|reflexivity]. Qed.

Lemma read_records_nth (fieldnames : list str) (rows : list (list str))
    (recs : list record) i row rec :
  read_records (fieldnames :: rows) = Ok recs ->
  nth_error (data_rows rows) i = Some row ->
  nth_error recs i = Some rec ->
  clean_row (dictreader_row fieldnames row) = Ok rec.
Proof.
  simpl. intros H Hrow Hrec. apply mapM_Forall2 in H.
  exact (Forall2_nth_error _ H Hrow Hrec).
Qed.

(** The Record of a row binds the lower-cased name of a header cell to the
    cleaned cell under it, when no other header cell has that name up to
    case. *)
Lemma clean_row_find (fieldnames row : list str) (rec : record) j h :
  clean_row (dictreader_row fieldnames row) = Ok rec ->
  nth_error fieldnames j = Some h ->
  (forall j' h', nth_error fieldnames j' = Some h' ->
                 lower h' = lower h -> j' = j) ->
  dict_find rec (lower h) = Some (clean_value (nth_error row j)).
Proof.
  intros Hrec Hj Huniq. apply clean_row_ok in Hrec. destruct Hrec as [Hlen ->].
  set (X := row_items fieldnames row).
  assert (HX : forall k v, In (k, v) (dict_of_items X) ->
                 lower k = lower h -> k = h /\ v = nth_error row j).
  { intros k v Hin Hk. apply in_dict_of_items in Hin.
    apply (in_row_items _ _ _ _ Hlen) in Hin. destruct Hin as [j' [Hj' Hv]].
    assert (j' = j) by (eapply Huniq; eassumption). subst j'.
    split; congruence. }
  assert (Hh : In (h, nth_error row j) (dict_of_items X)).
  { destruct (dict_find (dict_of_items X) h) as [v|] eqn:E.
    - pose proof (dict_find_Some_in _ _ E) as Hin.
      destruct (HX _ _ Hin eq_refl) as [_ ->]. exact Hin.
    - rewrite dict_find_of_items in E. apply dict_find_None in E.
      exfalso. apply E. unfold keys. rewrite map_rev, <- in_rev.
      apply in_map_iff.
      exists (h, nth_error row j). split; [reflexivity|].
      apply (in_row_items _ _ _ _ Hlen). exists j. split; [exact Hj|reflexivity]. }
  rewrite dict_find_of_items. apply dict_find_unique.
  - rewrite <- in_rev. apply in_map_iff.
    exists (h, nth_error row j). split; [reflexivity|exact Hh].
  - intros v' Hin. rewrite <- in_rev in Hin.
    apply in_map_iff in Hin. destruct Hin as [[k v] [E Hin]]. simpl in E.
    injection E as Ek <-. destruct (HX _ _ Hin Ek) as [_ ->]. reflexivity.
Qed.

(** C4: in the Record of a data row, under the lower-cased name of a
    header cell (one whose name no other header cell shares up to case), a
    non-empty cell is emitted stripped of leading and trailing whitespace,
    and a cell the row does not have is emitted as null, not as the empty
    string. *)
Theorem values_stripped_absent_kept (fieldnames : list str)
    (rows : list (list str)) (recs : list record) i row rec j h :
  read_records (fieldnames :: rows) = Ok recs ->
  nth_error (data_rows rows) i = Some row ->
  nth_error recs i = Some rec ->
  nth_error fieldnames j = Some h ->
  (forall j' h', nth_error fieldnames j' = Some h' ->
                 lower h' = lower h -> j' = j) ->
  (forall s, nth_error row j = Some s -> s <> [] ->
     dict_find rec (lower h) = Some (Some (strip s)) /\
     exists p q, s = p ++ strip s ++ q /\
                 forallb is_space p = true /\ forallb is_space q = true /\
                 padded (strip s) = false) /\
  (nth_error row j = None ->
     dict_find rec (lower h) = Some None /\
     dict_find rec (lower h) <> Some (Some [])).
Proof.
  intros Hrecs Hrow Hrec Hj Huniq.
  pose proof (@read_records_nth _ _ _ _ _ _ Hrecs Hrow Hrec) as Hclean.
  pose proof (@clean_row_find _ _ _ _ _ Hclean Hj Huniq) as Hfind.
  split.
  - intros s Hs Hne. rewrite Hfind, Hs, (clean_value_nonempty Hne).
    split; [reflexivity|apply strip_spec].
  - intros Hs. rewrite Hfind, Hs. simpl. split; [reflexivity|discriminate].
Qed.

Lemma sample_read : read_records (sample_header :: sample_rows) = Ok sample_records.
Proof. reflexivity. Qed.

Lemma sample_header_distinct j h :
  nth_error sample_header j = Some h ->
  forall j' h', nth_error sample_header j' = Some h' ->
                lower h' = lower h -> j' = j.
Proof.
  intros Hj j' h' Hj' E.
  destruct j as [|[|[|j]]]; simpl in Hj; try (destruct j; discriminate Hj);
    injection Hj as <-;
    destruct j' as [|[|[|j']]]; simpl in Hj';
    try (destruct j'; discriminate Hj');
    injection Hj' as <-; try reflexivity; discriminate E.
Qed.

Lemma values_stripped_absent_kept_witness :
  dict_find (nth 0 sample_records []) (lit "soort") = Some (Some (lit "Tablet"))
  /\ dict_find (nth 1 sample_records []) (lit "productnaam") = Some None.
Proof.
  split.
  - refine (proj1 (proj1 (@values_stripped_absent_kept
             sample_header sample_rows sample_records 0
             [lit "REG123"; lit " Tablet "; lit "Aspirin 500mg"]
             (nth 0 sample_records []) 1 (lit "Soort")
             sample_read eq_refl eq_refl eq_refl
             (@sample_header_distinct 1 _ eq_refl))
           (lit " Tablet ") eq_refl _)).
    discriminate.
  - refine (proj1 (proj2 (@values_stripped_absent_kept
             sample_header sample_rows sample_records 1
             [lit "REG9"; lit ""]
             (nth 1 sample_records []) 2 (lit "ProductNaam")
             sample_read eq_refl eq_refl eq_refl
             (@sample_header_distinct 2 _ eq_refl))
           eq_refl)).
Defined.

Lemma keys_of_items_lower (items : list (str * option str)) k :
  In k (keys (dict_of_items
                (map (fun kv => (lower (fst kv), clean_value (snd kv))) items))) ->
  exists k0, In k0 (map fst items) /\ k = lower k0.
Proof.
  unfold keys. intros H. apply in_map_iff in H. destruct H as [[k' v] [<- H]].
  apply in_dict_of_items, in_map_iff in H. destruct H as [[k0 v0] [E H]].
  simpl in E. injection E as <- _. exists k0. split; [|reflexivity].
  apply in_map_iff. exists (k0, v0). split; [reflexivity|exact H].
Qed.

(** C8: whatever the header row, every field name of every Record the
    Normalizer emits is lower-case: it holds no upper-case character and
    lower-casing leaves it unchanged. *)
Theorem field_names_lowercase (table : list (list str)) (recs : list record) :
  read_records table = Ok recs ->
  forall rec k, In rec recs -> In k (keys rec) ->
    is_lowercase k /\ lower k = k.
Proof.
  intros Hrecs rec k Hrec Hk.
  assert (Hlow : exists k0, k = lower k0).
  { destruct table as [|fieldnames rows]; simpl in Hrecs.
    - injection Hrecs as <-. destruct Hrec.
    - apply mapM_Forall2 in Hrecs.
      induction Hrecs as [|row rec' l recs' Hrow _ IH]; [destruct Hrec|].
      destruct Hrec as [->|Hrec]; [|exact (IH Hrec)].
      apply clean_row_ok in Hrow. destruct Hrow as [_ ->].
      apply keys_of_items_lower in Hk. destruct Hk as [k0 [_ ->]].
      exists k0. reflexivity. }
  destruct Hlow as [k0 ->]. split.
  - apply lower_is_lowercase.
  - apply lower_idempotent.
Qed.

Lemma field_names_lowercase_witness :
  is_lowercase (lit "registratienummer") /\
  lower (lit "registratienummer") = lit "registratienummer".
Proof.
  apply (@field_names_lowercase (sample_header :: sample_rows) sample_records
           sample_read (nth 0 sample_records []) (lit "registratienummer")).
  - left. reflexivity.
  - left. reflexivity.
Defined.

(** ** Serialization *)

Lemma scanstring_escape_char (c : ascii) (t : text) :
  scanstring (escape_char c ++ t) = cons_fst c (scanstring t).
Proof. each_ascii c; reflexivity. Qed.

(** Scanning an escaped string up to its closing quote gives the string
    back. *)
Lemma scanstring_escape (s : str) (t : text) :
  scanstring (escape s ++ dquote :: t) = Some (s, t).
Proof.
  unfold escape. induction s as [|c s IH]; simpl.
  - reflexivity.
  - rewrite <- app_assoc, scanstring_escape_char, IH. reflexivity.
Qed.

Lemma skip_ws_nonws (c : ascii) (t : text) :
  is_ws c = false -> skip_ws (c :: t) = c :: t.
Proof. simpl. intros ->. reflexivity. Qed.

Lemma encode_value_head (v : option str) (t : text) :
  exists c r, encode_value v ++ t = c :: r /\ is_ws c = false.
Proof.
  destruct v as [s|]; simpl; eexists; eexists; split; reflexivity.
Qed.

Lemma skip_ws_encode_value (v : option str) (t : text) :
  skip_ws (encode_value v ++ t) = encode_value v ++ t.
Proof.
  destruct (encode_value_head v t) as [c [r [-> Hc]]].
  apply skip_ws_nonws, Hc.
Qed.

Lemma parse_value_encode (v : option str) (t : text) :
  parse_value (encode_value v ++ t) = Some (v, t).
Proof.
  destruct v as [s|].
  - unfold encode_value, encode_basestring. simpl.
    rewrite <- app_assoc. simpl. rewrite scanstring_escape. reflexivity.
  - reflexivity.
Qed.

Lemma pairs_text_eq k v ms tail :
  pairs_text k v ms tail =
  escape k ++ dquote :: lit ": " ++ encode_value v ++
  match ms with
  | [] => newline_indent 1 ++ lit "}" ++ tail
  | (k', v') :: ms' =>
      lit "," ++ newline_indent 2 ++ dquote :: pairs_text k' v' ms' tail
  end.
Proof. destruct ms; reflexivity. Qed.

Lemma join_members ms k v tail :
  join (lit "," ++ newline_indent 2) (map encode_member ((k, v) :: ms))
  ++ newline_indent 1 ++ lit "}" ++ tail
  = dquote :: pairs_text k v ms tail.
Proof.
  revert k v; induction ms as [|[k' v'] ms IH]; intros k v.
  - simpl. unfold encode_member, encode_basestring. simpl.
    rewrite <- !app_assoc. reflexivity.
  - change (map encode_member ((k, v) :: (k', v') :: ms))
      with (encode_member (k, v) :: map encode_member ((k', v') :: ms)).
    change (join ?sep (?x :: map encode_member ((k', v') :: ms)))
      with (x ++ sep ++ join sep (map encode_member ((k', v') :: ms))).
    rewrite <- !app_assoc, IH.
    unfold encode_member, encode_basestring. simpl.
    rewrite <- !app_assoc. reflexivity.
Qed.

Lemma pairs_text_length k v ms tail : length ms < length (pairs_text k v ms tail).
Proof.
  revert k v; induction ms as [|[k' v'] ms IH]; intros k v.
  - simpl. rewrite length_app. simpl. lia.
  - rewrite pairs_text_eq. specialize (IH k' v').
    rewrite length_app. simpl. rewrite length_app. simpl. lia.
Qed.

Lemma parse_pairs_text ms k v tail fuel :
  length ms < fuel ->
  parse_pairs fuel (pairs_text k v ms tail) = Some ((k, v) :: ms, tail).
Proof.
  revert k v fuel; induction ms as [|[k' v'] ms IH]; intros k v fuel Hfuel;
    (destruct fuel as [|fuel]; [simpl in Hfuel; lia|]);
    rewrite pairs_text_eq; cbn [parse_pairs];
    rewrite scanstring_escape;
    change (skip_ws (lit ": " ++ ?t)) with (lit ": " ++ t);
    change (expect ":"%char (lit ": " ++ ?t)) with (Some (lit " " ++ t));
    cbv iota beta;
    change (skip_ws (lit " " ++ ?t)) with (skip_ws t);
    rewrite skip_ws_encode_value, parse_value_encode.
  - reflexivity.
  - change (skip_ws (lit "," ++ ?t)) with (lit "," ++ t).
    cbn [app lit list_ascii_of_string Ascii.eqb Bool.eqb].
    change (skip_ws (newline_indent 2 ++ dquote :: ?t)) with (dquote :: t).
    cbn [expect Ascii.eqb Bool.eqb dquote].
    rewrite IH by (simpl in Hfuel; lia). reflexivity.
Qed.

Lemma parse_object_encode (d : record) (tail : text) :
  wf_dict d ->
  exists s, encode_dict d ++ tail = "{"%char :: s /\
            parse_object s = Some (d, tail).
Proof.
  intros Hwf. destruct d as [|[k v] ms].
  - exists ("}"%char :: tail). split; reflexivity.
  - exists (newline_indent 2 ++ dquote :: pairs_text k v ms tail). split.
    + unfold encode_dict. rewrite <- !app_assoc, join_members. reflexivity.
    + unfold parse_object.
      change (skip_ws (newline_indent 2 ++ dquote :: ?t)) with (dquote :: t).
      cbn [Ascii.eqb Bool.eqb dquote].
      rewrite parse_pairs_text by apply pairs_text_length.
      rewrite (dict_of_items_wf Hwf). reflexivity.
Qed.

Lemma elements_text_eq d ds tail :
  elements_text d ds tail =
  encode_dict d ++
  match ds with
  | [] => newline_indent 0 ++ lit "]" ++ tail
  | d' :: ds' => lit "," ++ newline_indent 1 ++ elements_text d' ds' tail
  end.
Proof. destruct ds; reflexivity. Qed.

Lemma join_elements ds d tail :
  join (lit "," ++ newline_indent 1) (map encode_dict (d :: ds))
  ++ newline_indent 0 ++ lit "]" ++ tail
  = elements_text d ds tail.
Proof.
  revert d; induction ds as [|d' ds IH]; intros d.
  - reflexivity.
  - change (map encode_dict (d :: d' :: ds))
      with (encode_dict d :: map encode_dict (d' :: ds)).
    change (join ?sep (?x :: map encode_dict (d' :: ds)))
      with (x ++ sep ++ join sep (map encode_dict (d' :: ds))).
    rewrite <- !app_assoc, IH. reflexivity.
Qed.

Lemma elements_text_head d ds tail :
  exists r, elements_text d ds tail = "{"%char :: r.
Proof.
  rewrite elements_text_eq. destruct d as [|[k v] ms].
  - eexists. reflexivity.
  - unfold encode_dict. rewrite <- !app_assoc. eexists. reflexivity.
Qed.

Lemma elements_text_length d ds tail :
  length ds < length (elements_text d ds tail).
Proof.
  revert d; induction ds as [|d' ds IH]; intros d.
  - destruct (elements_text_head d [] tail) as [r ->]. simpl. lia.
  - rewrite elements_text_eq. specialize (IH d').
    rewrite length_app. simpl. lia.
Qed.

Lemma parse_elements_text ds d tail fuel :
  Forall (@wf_dict _) (d :: ds) ->
  length ds < fuel ->
  parse_elements fuel (elements_text d ds tail) = Some (d :: ds, tail).
Proof.
  revert d fuel; induction ds as [|d' ds IH]; intros d fuel Hwf Hfuel;
    (destruct fuel as [|fuel]; [simpl in Hfuel; lia|]);
    rewrite elements_text_eq; cbn [parse_elements];
    inversion Hwf as [|? ? Hd Hds]; subst;
    match goal with
    | |- context [encode_dict d ++ ?t] =>
        destruct (parse_object_encode t Hd) as [s [-> Hs]]
    end;
    cbn [expect Ascii.eqb Bool.eqb]; rewrite Hs.
  - reflexivity.
  - change (skip_ws (lit "," ++ ?t)) with (lit "," ++ t).
    cbn [app lit list_ascii_of_string Ascii.eqb Bool.eqb].
    change (skip_ws (newline_indent 1 ++ ?t)) with (skip_ws t).
    destruct (elements_text_head d' ds tail) as [r Hr].
    rewrite Hr, skip_ws_nonws by reflexivity. rewrite <- Hr.
    rewrite IH by (try exact Hds; simpl in Hfuel; lia). reflexivity.
Qed.

(** Loading a dumped list of Records gives the list back. *)
Lemma load_dump (recs : list record) :
  Forall (@wf_dict _) recs -> Json.load (Json.dump recs) = Some recs.
Proof.
  intros Hwf. destruct recs as [|d ds]; [reflexivity|].
  unfold Json.dump. pose proof (join_elements ds d []) as Hj.
  rewrite app_nil_r in Hj.
  replace (lit "[" ++ newline_indent 1
           ++ join (lit "," ++ newline_indent 1) (map encode_dict (d :: ds))
           ++ newline_indent 0 ++ lit "]")
    with ("["%char :: newline_indent 1 ++ elements_text d ds [])
    by (rewrite <- Hj; reflexivity).
  unfold Json.load. rewrite skip_ws_nonws by reflexivity.
  cbn [expect Ascii.eqb Bool.eqb]. unfold parse_array.
  change (skip_ws (newline_indent 1 ++ ?t)) with (skip_ws t).
  destruct (elements_text_head d ds []) as [r Hr].
  rewrite Hr, skip_ws_nonws by reflexivity.
  cbn [Ascii.eqb Bool.eqb]. rewrite <- Hr.
  rewrite parse_elements_text by (try exact Hwf; apply elements_text_length).
  reflexivity.
Qed.

Lemma decode_encode_char (c : ascii) (bs : list Byte.byte) :
  decode_utf8 (encode_char c ++ bs) = map_cons c (decode_utf8 bs).
Proof. each_ascii c; reflexivity. Qed.

Lemma decode_encode_utf8 (s : text) : decode_utf8 (encode_utf8 s) = Some s.
Proof.
  unfold encode_utf8. induction s as [|c s IH]; simpl; [reflexivity|].
  rewrite decode_encode_char, IH. reflexivity.
Qed.

Lemma read_write_json (recs : list record) :
  Forall (@wf_dict _) recs -> read_json (write_json recs) = Some recs.
Proof.
  intros Hwf. unfold read_json, write_json.
  rewrite decode_encode_utf8. apply load_dump, Hwf.
Qed.

(** C7: reading back the document the Normalizer wrote and writing the
    result with the same settings (indent 2, non-ASCII characters not
    escaped, UTF-8) gives the same document, byte for byte. *)
Theorem dump_load_dump (table : list (list str)) (file : list Byte.byte)
    (n : nat) :
  convert_csv_to_json table = Ok (file, n) ->
  exists recs, read_json file = Some recs /\ write_json recs = file.
Proof.
  unfold convert_csv_to_json.
  destruct (read_records table) as [recs|e] eqn:E; simpl; [|discriminate].
  intros [= <- <-]. exists recs. split; [|reflexivity].
  apply read_write_json, (read_records_wf _ E).
Qed.

Lemma dump_load_dump_witness :
  exists recs, read_json (write_json sample_records) = Some recs /\
               write_json recs = write_json sample_records.
Proof.
  apply (@dump_load_dump (sample_header :: sample_rows)
           (write_json sample_records) (length sample_records)).
  reflexivity.
Defined.

(** ** The Loader: one INSERT *)

Section InsertParams.

Variable f : str -> sqlval.

Lemma build_row_find (name : str) (id : nat) :
  In name data_columns ->
  dict_find (build_row medicines_table insert_columns (map f param_keys) id) name
  = Some (f name).
Proof.
  intros H. unfold data_columns in H. simpl in H.
  repeat (destruct H as [<-|H]; [vm_compute; reflexivity|]).
  destruct H.
Qed.

Lemma build_row_names (id : nat) :
  map fst (build_row medicines_table insert_columns (map f param_keys) id)
  = map col_name (tbl_cols medicines_table).
Proof. unfold build_row. rewrite map_map. reflexivity. Qed.

Lemma build_row_id (id : nat) :
  dict_find (build_row medicines_table insert_columns (map f param_keys) id)
            (lit "id") = Some (SqlInt id).
Proof. vm_compute. reflexivity. Qed.

Lemma violates_not_null_productnaam (id : nat) :
  violates_not_null medicines_table
    (build_row medicines_table insert_columns (map f param_keys) id)
  = match f productnaam with
    | SqlNull => true
    | _ => false
    end.
Proof. vm_compute. destruct (f _); reflexivity. Qed.

End InsertParams.

Lemma insert_params_eq (medicine : record) :
  insert_params medicine = map (stored_value medicine) param_keys.
Proof.
  unfold insert_params. apply map_ext. intros key.
  unfold stored_value, dict_get.
  destruct (dict_find medicine key) as [[s|]|]; reflexivity.
Qed.

Lemma columns_checked :
  forallb (fun k => has_column k medicines_table) insert_columns = true.
Proof. vm_compute. reflexivity. Qed.

(** What one INSERT of the Loader does on a connection that has the
    schema. *)
Lemma insert_medicine_spec (medicine : record) (c : conn) :
  has_schema c ->
  insert_medicine medicine c =
  match stored_value medicine productnaam with
  | SqlNull => (Raise IntegrityError, with_failed_insert c)
  | _ => (Ok tt, with_row c (medicine_row medicine (S (last_id (current c))))
                          (S (last_id (current c))))
  end.
Proof.
  unfold has_schema. intros Hs.
  unfold insert_medicine, insert_into. rewrite Hs, columns_checked. simpl negb.
  cbv iota. fold (medicine_row medicine (S (last_id (current c)))).
  unfold medicine_row. rewrite insert_params_eq, violates_not_null_productnaam.
  destruct (stored_value medicine productnaam); reflexivity.
Qed.

Lemma medicine_row_find (medicine : record) (id : nat) (name : str) :
  In name data_columns ->
  dict_find (medicine_row medicine id) name = Some (stored_value medicine name).
Proof.
  intros H. unfold medicine_row. rewrite insert_params_eq.
  apply build_row_find, H.
Qed.

(** A successful INSERT appends the row of the medicine. *)
Lemma insert_medicine_ok (medicine : record) (c c' : conn) :
  has_schema c ->
  insert_medicine medicine c = (Ok tt, c') ->
  rows (current c') =
  rows (current c) ++ [medicine_row medicine (S (last_id (current c)))].
Proof.
  intros Hs Hins. rewrite (insert_medicine_spec _ Hs) in Hins.
  destruct (stored_value medicine productnaam);
    try discriminate; injection Hins as <-; reflexivity.
Qed.

(** C1: when the Loader inserts a Record, the new row has the 28 columns
    of the schema in order, and each of the 27 columns after the key holds
    the value the Record has under the name of that very column: the text,
    NULL for null, and the empty string when the Record has no such
    field. *)
Theorem inserted_row_matches_record (medicine : record) (c c' : conn) :
  has_schema c ->
  insert_medicine medicine c = (Ok tt, c') ->
  exists r,
    rows (current c') = rows (current c) ++ [r] /\
    map fst r = map col_name (tbl_cols medicines_table) /\
    length data_columns = 27 /\
    forall name, In name data_columns ->
      dict_find r name =
      Some (match dict_find medicine name with
            | None => SqlText []
            | Some (Some s) => SqlText s
            | Some None => SqlNull
            end).
Proof.
  intros Hs Hins.
  exists (medicine_row medicine (S (last_id (current c)))).
  split; [exact (insert_medicine_ok _ Hs Hins)|].
  split; [|split; [reflexivity|]].
  - unfold medicine_row. rewrite insert_params_eq. apply build_row_names.
  - intros name Hname. apply medicine_row_find, Hname.
Qed.

Lemma sample_conn_schema : has_schema sample_conn.
Proof. vm_compute. reflexivity. Qed.

Lemma inserted_row_matches_record_witness :
  exists r,
    rows (current (snd (insert_medicine sample_medicine sample_conn)))
    = rows (current sample_conn) ++ [r] /\
    map fst r = map col_name (tbl_cols medicines_table) /\
    length data_columns = 27 /\
    forall name, In name data_columns ->
      dict_find r name =
      Some (match dict_find sample_medicine name with
            | None => SqlText []
            | Some (Some s) => SqlText s
            | Some None => SqlNull
            end).
Proof.
  apply (@inserted_row_matches_record sample_medicine sample_conn
           (snd (insert_medicine sample_medicine sample_conn))
           sample_conn_schema).
  vm_compute. reflexivity.
Defined.

(** The three lists of column names of the script agree. *)
Lemma columns_aligned :
  insert_columns = data_columns /\ param_keys = insert_columns.
Proof. split; reflexivity. Qed.

Lemma productnaam_column : In productnaam data_columns.
Proof. vm_compute. tauto. Qed.

(** C9: a field that is present with the value null is bound, and stored,
    as NULL, not as the empty string, which is the default for a missing
    key only.  A Record whose productnaam is null makes the INSERT raise
    the NOT NULL constraint error and adds no row; a Record without the
    productnaam key is inserted with the empty string and no error. *)
Theorem null_value_stays_null (medicine : record) (c : conn) :
  has_schema c ->
  (forall name, In name data_columns ->
     dict_find medicine name = Some None ->
     dict_get medicine name (Some []) = None /\
     forall id, dict_find (medicine_row medicine id) name = Some SqlNull) /\
  (forall name c', In name data_columns ->
     dict_find medicine name = Some None ->
     insert_medicine medicine c = (Ok tt, c') ->
     exists r, rows (current c') = rows (current c) ++ [r] /\
               dict_find r name = Some SqlNull) /\
  (dict_find medicine productnaam = Some None ->
     exists c', insert_medicine medicine c = (Raise IntegrityError, c') /\
                current c' = current c /\ committed c' = committed c) /\
  (dict_find medicine productnaam = None ->
     exists c' r, insert_medicine medicine c = (Ok tt, c') /\
                  rows (current c') = rows (current c) ++ [r] /\
                  dict_find r productnaam = Some (SqlText [])).
Proof.
  intros Hs. pose proof (insert_medicine_spec medicine Hs) as Hspec.
  split; [|split; [|split]].
  - intros name Hname Hnull. split.
    + unfold dict_get. rewrite Hnull. reflexivity.
    + intros id. rewrite (medicine_row_find _ _ Hname).
      unfold stored_value. rewrite Hnull. reflexivity.
  - intros name c' Hname Hnull Hins.
    eexists. split; [exact (insert_medicine_ok _ Hs Hins)|].
    rewrite (medicine_row_find _ _ Hname).
    unfold stored_value. rewrite Hnull. reflexivity.
  - intros Hnull. unfold stored_value in Hspec. rewrite Hnull in Hspec.
    eexists. split; [exact Hspec|]. split; reflexivity.
  - intros Hnone. unfold stored_value in Hspec. rewrite Hnone in Hspec.
    eexists. eexists. split; [exact Hspec|]. split; [reflexivity|].
    rewrite (medicine_row_find _ _ productnaam_column).
    unfold stored_value. rewrite Hnone. reflexivity.
Qed.

Lemma null_value_stays_null_witness :
  (exists c', insert_medicine null_name_medicine sample_conn
              = (Raise IntegrityError, c') /\
              current c' = current sample_conn /\
              committed c' = committed sample_conn) /\
  (exists c' r, insert_medicine nameless_medicine sample_conn = (Ok tt, c') /\
                rows (current c') = rows (current sample_conn) ++ [r] /\
                dict_find r productnaam = Some (SqlText [])) /\
  (exists r, rows (current (snd (insert_medicine null_number_medicine sample_conn)))
             = rows (current sample_conn) ++ [r] /\
             dict_find r (lit "registratienummer") = Some SqlNull).
Proof.
  split; [|split].
  - apply (proj1 (proj2 (proj2 (@null_value_stays_null null_name_medicine
             sample_conn sample_conn_schema)))).
    reflexivity.
  - apply (proj2 (proj2 (proj2 (@null_value_stays_null nameless_medicine
             sample_conn sample_conn_schema)))).
    reflexivity.
  - apply (proj1 (proj2 (@null_value_stays_null null_number_medicine
             sample_conn sample_conn_schema))
             (lit "registratienummer")).
    + vm_compute. tauto.
    + reflexivity.
    + vm_compute. reflexivity.
Defined.

(** ** Header cells with surrounding whitespace *)

Lemma in_keys_of_items {V} (items : list (str * V)) k :
  In k (map fst items) -> In k (keys (dict_of_items items)).
Proof.
  intros H. destruct (dict_find (dict_of_items items) k) as [v|] eqn:E.
  - apply dict_find_Some_in in E. unfold keys. apply in_map_iff.
    exists (k, v). split; [reflexivity|exact E].
  - rewrite dict_find_of_items in E. apply dict_find_None in E.
    exfalso. apply E. unfold keys. rewrite map_rev, <- in_rev. exact H.
Qed.

Lemma keys_of_items_in {V} (items : list (str * V)) k :
  In k (keys (dict_of_items items)) -> In k (map fst items).
Proof.
  unfold keys. intros H. apply in_map_iff in H. destruct H as [[k' v] [<- H]].
  apply in_dict_of_items in H. apply in_map_iff. exists (k', v).
  split; [reflexivity|exact H].
Qed.

Lemma row_items_keys (fieldnames row : list str) k :
  length row <= length fieldnames ->
  (In k (map fst (row_items fieldnames row)) <-> In k fieldnames).
Proof.
  intros Hlen. split.
  - intros H. apply in_map_iff in H. destruct H as [[k' v] [<- H]].
    apply (in_row_items _ _ _ _ Hlen) in H. destruct H as [j [Hj _]].
    eapply nth_error_In, Hj.
  - intros H. apply In_nth_error in H. destruct H as [j Hj].
    apply in_map_iff. exists (k, nth_error row j). split; [reflexivity|].
    apply (in_row_items _ _ _ _ Hlen). exists j. split; [exact Hj|reflexivity].
Qed.

(** The field names of a Record are the lower-cased header cells. *)
Lemma clean_row_keys (fieldnames row : list str) (rec : record) k :
  clean_row (dictreader_row fieldnames row) = Ok rec ->
  (In k (keys rec) <-> exists h, In h fieldnames /\ k = lower h).
Proof.
  intros Hrec. apply clean_row_ok in Hrec. destruct Hrec as [Hlen ->]. split.
  - intros H. apply keys_of_items_lower in H. destruct H as [k0 [Hk0 ->]].
    exists k0. split; [|reflexivity].
    apply (row_items_keys _ _ _ Hlen), keys_of_items_in, Hk0.
  - intros [h [Hh ->]]. apply in_keys_of_items. rewrite map_map. simpl.
    assert (Hin : In h (keys (dict_of_items (row_items fieldnames row))))
      by (apply in_keys_of_items, (row_items_keys _ _ _ Hlen), Hh).
    unfold keys in Hin. apply in_map_iff in Hin.
    destruct Hin as [[k' v] [E Hin]]. simpl in E. subst k'.
    apply in_map_iff. exists (h, v). split; [reflexivity|exact Hin].
Qed.

Lemma param_keys_not_padded (k : str) : In k param_keys -> padded k = false.
Proof.
  intros H. unfold param_keys in H.
  repeat (destruct H as [<-|H]; [reflexivity|]). destruct H.
Qed.

(** C10: the Normalizer lower-cases a header cell but keeps its leading
    and trailing whitespace, so the field name it emits is none of the 27
    keys the Loader asks for; the column the cell stands for (its name
    stripped and lower-cased), when no other header cell names it, is then
    bound to the empty string, whatever the row holds under that cell. *)
Theorem padded_header_cell_not_loaded (fieldnames row : list str)
    (rec : record) (h column : str) :
  clean_row (dictreader_row fieldnames row) = Ok rec ->
  In h fieldnames ->
  padded h = true ->
  strip (lower h) = column ->
  In column data_columns ->
  (forall h', In h' fieldnames -> lower h' <> column) ->
  In (lower h) (keys rec) /\
  padded (lower h) = true /\
  ~ In (lower h) param_keys /\
  dict_get rec column (Some []) = Some [] /\
  (forall id, dict_find (medicine_row rec id) column = Some (SqlText [])) /\
  (forall c c', has_schema c -> insert_medicine rec c = (Ok tt, c') ->
     exists r, rows (current c') = rows (current c) ++ [r] /\
               dict_find r column = Some (SqlText [])).
Proof.
  intros Hrec Hh Hpad Hstrip Hcol Hother.
  assert (Hkey : In (lower h) (keys rec)).
  { apply (clean_row_keys _ _ (lower h) Hrec). exists h. tauto. }
  assert (Hlow : padded (lower h) = true) by (rewrite padded_lower; exact Hpad).
  assert (Hnone : dict_find rec column = None).
  { apply dict_find_None. intros Hin.
    apply (clean_row_keys _ _ column Hrec) in Hin.
    destruct Hin as [h' [Hh' E]]. apply (Hother h' Hh'). congruence. }
  split; [exact Hkey|]. split; [exact Hlow|]. split; [|split; [|split]].
  - intros Hin. apply param_keys_not_padded in Hin. congruence.
  - unfold dict_get. rewrite Hnone. reflexivity.
  - intros id. rewrite (medicine_row_find _ _ Hcol).
    unfold stored_value. rewrite Hnone. reflexivity.
  - intros c c' Hs Hins.
    eexists. split; [exact (insert_medicine_ok _ Hs Hins)|].
    rewrite (medicine_row_find _ _ Hcol).
    unfold stored_value. rewrite Hnone. reflexivity.
Qed.

Lemma padded_header_cell_not_loaded_witness :
  In (lit " productnaam") (keys padded_record) /\
  padded (lit " productnaam") = true /\
  ~ In (lit " productnaam") param_keys /\
  dict_get padded_record productnaam (Some []) = Some [] /\
  (forall id, dict_find (medicine_row padded_record id) productnaam
              = Some (SqlText [])) /\
  (forall c c', has_schema c -> insert_medicine padded_record c = (Ok tt, c') ->
     exists r, rows (current c') = rows (current c) ++ [r] /\
               dict_find r productnaam = Some (SqlText [])).
Proof.
  apply (@padded_header_cell_not_loaded padded_header padded_row padded_record
           (lit " ProductNaam") productnaam).
  - reflexivity.
  - simpl. tauto.
  - reflexivity.
  - reflexivity.
  - vm_compute. tauto.
  - intros h' [<-|[<-|[]]]; discriminate.
Defined.

(** ** The Loader: a missing input document *)

(** C5: when the input document does not exist, the Loader exits with a
    non-zero status and the world is as before: no store file has been
    created or changed, and no operation has been sent to a store. *)
Theorem missing_input_exits_first (w : world) :
  json_file w = None ->
  exists status w',
    migrate_json_to_sqlite w = Exited status w' /\
    status <> 0 /\
    db_file w' = db_file w /\
    store_ops w' = store_ops w.
Proof.
  intros H. unfold migrate_json_to_sqlite. rewrite H.
  exists 1, w. repeat split. discriminate.
Qed.

Lemma missing_input_exits_first_witness :
  exists status w',
    migrate_json_to_sqlite missing_input_world = Exited status w' /\
    status <> 0 /\
    db_file w' = None /\
    store_ops w' = [].
Proof.
  apply (@missing_input_exits_first missing_input_world). reflexivity.
Defined.

(** Whenever the input document exists, the Loader opens the store. *)
Lemma present_input_connects (w : world) (meds : list record) :
  json_file w = Some meds ->
  exists w', (migrate_json_to_sqlite w = Returned w' \/
              exists e, migrate_json_to_sqlite w = Raised e w') /\
             db_file w' <> None.
Proof.
  intros H. unfold migrate_json_to_sqlite. rewrite H.
  match goal with
  | |- context [match ?run ?c with _ => _ end] => destruct (run c) as [[u|e] c']
  end.
  - eexists. split; [left; reflexivity|]. discriminate.
  - eexists. split; [right; exists e; reflexivity|]. discriminate.
Qed.

(** ** Schema creation *)

Lemma find_snoc {A} (f : A -> bool) (l : list A) (x : A) :
  find f (l ++ [x]) =
  match find f l with
  | Some y => Some y
  | None => if f x then Some x else None
  end.
Proof.
  induction l as [|a l IH]; simpl; [reflexivity|].
  destruct (f a); [reflexivity|exact IH].
Qed.

Lemma find_table_add (n : str) (t : table) (db : database) :
  find_table n (add_table t db) =
  match find_table n db with
  | Some t' => Some t'
  | None => if Str.eqb (tbl_name t) n then Some t else None
  end.
Proof.
  unfold find_table, add_table. simpl. rewrite find_snoc. reflexivity.
Qed.

Lemma has_index_add (n : str) (i : index) (db : database) :
  has_index n (add_index i db) = has_index n db || Str.eqb (idx_name i) n.
Proof.
  unfold has_index, add_index. simpl. rewrite existsb_app. simpl.
  rewrite orb_false_r. reflexivity.
Qed.

Lemma find_table_None (n : str) (db : database) :
  find_table n db = None -> ~ In n (map tbl_name (tables db)).
Proof.
  unfold find_table. intros H Hin. apply in_map_iff in Hin.
  destruct Hin as [t [<- Ht]].
  apply (find_none _ _ H) in Ht. rewrite str_eqb_refl in Ht. discriminate.
Qed.

Lemma has_index_false (n : str) (db : database) :
  has_index n db = false -> ~ In n (map idx_name (indexes db)).
Proof.
  unfold has_index. intros H Hin. apply in_map_iff in Hin.
  destruct Hin as [i [<- Hi]].
  assert (E : existsb (fun i0 => Str.eqb (idx_name i0) (idx_name i)) (indexes db) = true).
  { apply existsb_exists. exists i. split; [exact Hi|apply str_eqb_refl]. }
  congruence.
Qed.

Lemma NoDup_snoc {A} (l : list A) (x : A) : NoDup l -> ~ In x l -> NoDup (l ++ [x]).
Proof.
  intros Hl Hx. apply NoDup_app; [exact Hl|repeat constructor; intros []|].
  intros y Hy [<-|[]]. exact (Hx Hy).
Qed.

(** CREATE TABLE IF NOT EXISTS that did not raise. *)
Lemma create_table_ok (t : table) (c c' : conn) :
  create_table_if_not_exists t c = (Ok tt, c') ->
  synced c ->
  synced c' /\
  find_table (tbl_name t) (current c') <> None /\
  (catalog_wf (current c) -> catalog_wf (current c')) /\
  indexes (current c') = indexes (current c) /\
  rows (current c') = rows (current c) /\
  commit_sizes (trace c') = commit_sizes (trace c) /\
  (find_table (tbl_name t) (current c) = None ->
   tables (current c') = tables (current c) ++ [t]) /\
  (find_table (tbl_name t) (current c) <> None ->
   tables (current c') = tables (current c)).
Proof.
  unfold create_table_if_not_exists, mbind, log, get_current, ret, raise, ddl.
  cbn [current committed in_txn trace commit_calls].
  intros H [Hsync Htxn].
  destruct (find_table (tbl_name t) (current c)) as [t0|] eqn:Ef.
  - injection H as <-. unfold synced, catalog_wf, commit_sizes. simpl.
    rewrite Ef, flat_map_app, app_nil_r.
    repeat apply conj; try tauto; congruence.
  - destruct (has_index (tbl_name t) (current c)) eqn:Eh; [discriminate|].
    injection H as <-. unfold synced, catalog_wf, commit_sizes. simpl.
    rewrite find_table_add, Ef, str_eqb_refl, flat_map_app, app_nil_r.
    repeat apply conj; try tauto; try congruence.
    intros [Ht Hi]. split; [|exact Hi]. rewrite map_app.
    apply NoDup_snoc; [exact Ht|]. apply find_table_None, Ef.
Qed.

(** CREATE INDEX IF NOT EXISTS that did not raise. *)
Lemma create_index_ok (i : index) (c c' : conn) :
  create_index_if_not_exists i c = (Ok tt, c') ->
  synced c ->
  synced c' /\
  index_ready i (current c') /\
  (catalog_wf (current c) -> catalog_wf (current c')) /\
  tables (current c') = tables (current c) /\
  rows (current c') = rows (current c) /\
  commit_sizes (trace c') = commit_sizes (trace c) /\
  (forall n, has_index n (current c) = true -> has_index n (current c') = true).
Proof.
  unfold create_index_if_not_exists, mbind, log, get_current, ret, raise, ddl.
  cbn [current committed in_txn trace commit_calls].
  intros H [Hsync Htxn]. unfold index_ready.
  destruct (find_table (idx_table i) (current c)) as [t|] eqn:Et; [|discriminate].
  destruct (find_table (idx_name i) (current c)) as [t'|] eqn:En; [discriminate|].
  destruct (has_index (idx_name i) (current c)) eqn:Eh.
  - injection H as <-. unfold synced, catalog_wf, commit_sizes. simpl.
    rewrite Et, En, Eh, flat_map_app, app_nil_r.
    repeat apply conj; try tauto; congruence.
  - destruct (has_column (idx_col i) t) eqn:Ec; [|discriminate].
    injection H as <-. unfold synced, catalog_wf, commit_sizes. simpl.
    rewrite has_index_add, str_eqb_refl, orb_true_r, flat_map_app, app_nil_r.
    unfold find_table in *. simpl. rewrite Et, En.
    repeat apply conj; try tauto; try congruence.
    + intros [Ht Hi]. split; [exact Ht|]. rewrite map_app.
      apply NoDup_snoc; [exact Hi|]. apply has_index_false, Eh.
    + intros n Hn. rewrite has_index_add, Hn. reflexivity.
Qed.

Lemma create_table_noop (t : table) (c : conn) :
  find_table (tbl_name t) (current c) <> None ->
  create_table_if_not_exists t c = (Ok tt, with_op c (OpCreateTable (tbl_name t))).
Proof.
  intros H.
  unfold create_table_if_not_exists, mbind, log, get_current, ret.
  cbn [current]. destruct (find_table (tbl_name t) (current c)); [reflexivity|].
  congruence.
Qed.

Lemma create_index_noop (i : index) (c : conn) :
  index_ready i (current c) ->
  create_index_if_not_exists i c = (Ok tt, with_op c (OpCreateIndex (idx_name i))).
Proof.
  intros [Ht [Hn Hi]].
  unfold create_index_if_not_exists, mbind, log, get_current, ret.
  cbn [current]. rewrite Hn, Hi.
  destruct (find_table (idx_table i) (current c)); [reflexivity|congruence].
Qed.

Lemma index_ready_stable (i : index) (db db' : database) :
  tables db' = tables db ->
  (forall n, has_index n db = true -> has_index n db' = true) ->
  index_ready i db -> index_ready i db'.
Proof.
  unfold index_ready, find_table. intros -> Hmono [Ht [Hn Hi]].
  repeat apply conj; auto.
Qed.

(** What [create_schema] leaves behind when no statement raised. *)
Lemma create_schema_ok (c c' : conn) :
  create_schema c = (Ok tt, c') ->
  synced c ->
  synced c' /\
  find_table medicines (current c') <> None /\
  index_ready idx_productnaam (current c') /\
  index_ready idx_werkzamestoffen (current c') /\
  index_ready idx_farmaceutischevorm (current c') /\
  (catalog_wf (current c) -> catalog_wf (current c')) /\
  rows (current c') = rows (current c) /\
  commit_sizes (trace c') = commit_sizes (trace c) /\
  (find_table medicines (current c) = None -> has_schema c') /\
  (has_schema c -> has_schema c').
Proof.
  unfold create_schema, mbind. intros H Hs0.
  destruct (create_table_if_not_exists medicines_table c) as [[[]|e] c1] eqn:E1;
    [|discriminate].
  destruct (create_index_if_not_exists idx_productnaam c1) as [[[]|e] c2] eqn:E2;
    [|discriminate].
  destruct (create_index_if_not_exists idx_werkzamestoffen c2) as [[[]|e] c3] eqn:E3;
    [|discriminate].
  destruct (create_index_if_not_exists idx_farmaceutischevorm c3) as [[[]|e] c4] eqn:E4;
    [|discriminate].
  destruct (@create_table_ok _ _ _ E1 Hs0)
    as [Hs1 [Ht1 [Hw1 [_ [Hr1 [Hc1 [Hnew1 Hold1]]]]]]].
  destruct (@create_index_ok _ _ _ E2 Hs1) as [Hs2 [Hi2 [Hw2 [Ht2 [Hr2 [Hc2 Hm2]]]]]].
  destruct (@create_index_ok _ _ _ E3 Hs2) as [Hs3 [Hi3 [Hw3 [Ht3 [Hr3 [Hc3 Hm3]]]]]].
  destruct (@create_index_ok _ _ _ E4 Hs3) as [Hs4 [Hi4 [Hw4 [Ht4 [Hr4 [Hc4 Hm4]]]]]].
  assert (Htabs : tables (current c4) = tables (current c1)) by congruence.
  assert (Hft : forall n, find_table n (current c4) = find_table n (current c1))
    by (intros n; unfold find_table; rewrite Htabs; reflexivity).
  destruct Hs4 as [Hsync4 Htxn4].
  unfold commit in H. rewrite Htxn4 in H. injection H as <-.
  unfold has_schema. cbn [current].
  split; [split; [exact Hsync4|reflexivity]|].
  split; [rewrite Hft; exact Ht1|].
  split; [apply (@index_ready_stable idx_productnaam (current c2));
          [congruence|auto|exact Hi2]|].
  split; [apply (@index_ready_stable idx_werkzamestoffen (current c3));
          [congruence|auto|exact Hi3]|].
  split; [exact Hi4|].
  split; [tauto|].
  split; [congruence|].
  split; [cbn [trace]; congruence|].
  split.
  - intros Hnone. rewrite Hft. unfold find_table in *.
    rewrite (Hnew1 Hnone), find_snoc, Hnone. reflexivity.
  - intros Hsome.
    assert (E : tables (current c1) = tables (current c)).
    { apply Hold1. change (tbl_name medicines_table) with medicines.
      rewrite Hsome. discriminate. }
    rewrite Hft. unfold find_table in *. rewrite E. exact Hsome.
Qed.

(** On a store that has the schema, [create_schema] changes nothing. *)
Lemma create_schema_noop (c : conn) :
  in_txn c = false ->
  find_table medicines (current c) <> None ->
  index_ready idx_productnaam (current c) ->
  index_ready idx_werkzamestoffen (current c) ->
  index_ready idx_farmaceutischevorm (current c) ->
  exists c', create_schema c = (Ok tt, c') /\
             committed c' = committed c /\ current c' = current c.
Proof.
  intros Htxn Ht H1 H2 H3. unfold create_schema, mbind.
  rewrite (create_table_noop medicines_table c Ht).
  rewrite create_index_noop by exact H1.
  rewrite create_index_noop by exact H2.
  rewrite create_index_noop by exact H3.
  unfold commit. cbn [in_txn with_op]. rewrite Htxn.
  eexists. split; [reflexivity|]. split; reflexivity.
Qed.

Lemma count_zero {A} (f : A -> str) (l : list A) (n : str) :
  ~ In n (map f l) -> length (filter (fun a => Str.eqb (f a) n) l) = 0.
Proof.
  induction l as [|a l IH]; simpl; [reflexivity|]. intros H.
  rewrite str_eqb_neq by tauto. apply IH. tauto.
Qed.

Lemma count_one {A} (f : A -> str) (l : list A) (n : str) :
  NoDup (map f l) -> In n (map f l) ->
  length (filter (fun a => Str.eqb (f a) n) l) = 1.
Proof.
  induction l as [|a l IH]; simpl; [intros _ []|].
  intros Hnd Hin. inversion Hnd as [|? ? Hnotin Hnd']; subst.
  destruct (str_eqb_spec (f a) n) as [E|E].
  - simpl. f_equal. subst n. apply count_zero, Hnotin.
  - destruct Hin as [Hin|Hin]; [congruence|]. apply IH; assumption.
Qed.

Lemma count_tables_one (n : str) (db : database) :
  catalog_wf db -> find_table n db <> None -> count_tables n db = 1.
Proof.
  intros [Hnd _] H. unfold count_tables. apply count_one; [exact Hnd|].
  unfold find_table in H. destruct (find _ (tables db)) as [t|] eqn:E; [|congruence].
  apply find_some in E. destruct E as [Hin E]. apply str_eqb_eq in E. subst n.
  apply in_map, Hin.
Qed.

Lemma count_indexes_one (n : str) (db : database) :
  catalog_wf db -> has_index n db = true -> count_indexes n db = 1.
Proof.
  intros [_ Hnd] H. unfold count_indexes. apply count_one; [exact Hnd|].
  unfold has_index in H. apply existsb_exists in H. destruct H as [i [Hin E]].
  apply str_eqb_eq in E. subst n. apply in_map, Hin.
Qed.

Lemma connect_synced (file : option database) : synced (connect file).
Proof. split; reflexivity. Qed.

Lemma connect_wf (file : option database) :
  (forall db, file = Some db -> catalog_wf db) ->
  catalog_wf (current (connect file)).
Proof.
  intros H. destruct file as [db|]; simpl.
  - apply H. reflexivity.
  - split; constructor.
Qed.

(** On a new store every statement of [create_database] succeeds. *)
Lemma create_database_new : create_database None = (Ok tt, sample_conn).
Proof. reflexivity. Qed.

(** C6: schema creation is idempotent.  When [create_database] has
    succeeded on a store, a second call on the resulting store raises
    nothing and leaves the store as it is; the store then has exactly one
    medicines table and exactly one index of each of the three names. *)
Theorem create_database_idempotent (file : option database) (c1 : conn) :
  (forall db, file = Some db -> catalog_wf db) ->
  create_database file = (Ok tt, c1) ->
  exists c2,
    create_database (Some (committed c1)) = (Ok tt, c2) /\
    committed c2 = committed c1 /\
    count_tables medicines (committed c2) = 1 /\
    count_indexes (lit "idx_productnaam") (committed c2) = 1 /\
    count_indexes (lit "idx_werkzamestoffen") (committed c2) = 1 /\
    count_indexes (lit "idx_farmaceutischevorm") (committed c2) = 1.
Proof.
  unfold create_database. intros Hwf H1.
  destruct (create_schema_ok H1 (connect_synced file))
    as [[Hsync _] [Ht [Hi1 [Hi2 [Hi3 [Hw _]]]]]].
  specialize (Hw (connect_wf Hwf)). rewrite <- Hsync in Ht, Hi1, Hi2, Hi3, Hw.
  destruct (@create_schema_noop (connect (Some (committed c1))) eq_refl Ht Hi1 Hi2 Hi3)
    as [c2 [H2 [Hc2 _]]].
  exists c2. split; [exact H2|]. simpl in Hc2. rewrite Hc2.
  split; [reflexivity|].
  split; [apply count_tables_one; assumption|].
  split; [apply count_indexes_one; [exact Hw|apply Hi1]|].
  split; [apply count_indexes_one; [exact Hw|apply Hi2]|].
  apply count_indexes_one; [exact Hw|apply Hi3].
Qed.

Lemma create_database_idempotent_witness :
  exists c2,
    create_database (Some (committed sample_conn)) = (Ok tt, c2) /\
    committed c2 = committed sample_conn /\
    count_tables medicines (committed c2) = 1 /\
    count_indexes (lit "idx_productnaam") (committed c2) = 1 /\
    count_indexes (lit "idx_werkzamestoffen") (committed c2) = 1 /\
    count_indexes (lit "idx_farmaceutischevorm") (committed c2) = 1.
Proof.
  apply (@create_database_idempotent None sample_conn).
  - intros db H. discriminate H.
  - reflexivity.
Defined.

(** ** The Loader: batches and commits *)

Lemma range_from_lt (fuel start stop step i : nat) :
  In i (range_from fuel start stop step) -> i < stop.
Proof.
  revert start; induction fuel as [|fuel IH]; simpl; intros start; [intros []|].
  destruct (Nat.ltb_spec start stop) as [Hlt|Hge]; [|intros []].
  intros [<-|H]; [exact Hlt|exact (IH _ H)].
Qed.

Lemma ceil_step (m step : nat) :
  0 < step -> 0 < m -> (m + step - 1) / step = S ((m - step + step - 1) / step).
Proof.
  intros Hstep Hm. destruct (Nat.le_gt_cases step m) as [Hle|Hgt].
  - replace (m + step - 1) with ((m - step + step - 1) + 1 * step) by lia.
    rewrite Nat.div_add by lia. lia.
  - replace (m - step + step - 1) with (step - 1) by lia.
    rewrite (Nat.div_small (step - 1)) by lia.
    symmetry. apply Nat.div_unique with (r := m - 1); lia.
Qed.

(** [range(start, stop, step)] has ceil((stop - start) / step) elements. *)
Lemma range_from_length (fuel start stop step : nat) :
  0 < step -> stop - start <= fuel ->
  length (range_from fuel start stop step) = (stop - start + step - 1) / step.
Proof.
  intros Hstep. revert start; induction fuel as [|fuel IH]; intros start Hfuel.
  - simpl. replace (stop - start) with 0 by lia.
    rewrite Nat.div_small by lia. reflexivity.
  - simpl. destruct (Nat.ltb_spec start stop) as [Hlt|Hge].
    + simpl. rewrite IH by lia. rewrite (ceil_step (m := stop - start)) by lia.
      do 2 f_equal. lia.
    + replace (stop - start) with 0 by lia.
      rewrite Nat.div_small by lia. reflexivity.
Qed.

Lemma range_length (n : nat) :
  length (range 0 n batch_size) = (n + 999) / 1000.
Proof.
  unfold range. rewrite range_from_length by (unfold batch_size; lia).
  unfold batch_size. f_equal. lia.
Qed.

Lemma range_lt (n i : nat) : In i (range 0 n batch_size) -> i < n.
Proof. apply range_from_lt. Qed.

Lemma in_slice {A} (l : list A) (i j : nat) (x : A) :
  In x (slice l i j) -> In x l.
Proof.
  unfold slice. intros H.
  rewrite <- (firstn_skipn i l). apply in_or_app. right.
  rewrite <- (firstn_skipn (j - i) (skipn i l)). apply in_or_app. left. exact H.
Qed.

Lemma batch_length_min (meds : list record) (i : nat) :
  batch_length meds i = Nat.min batch_size (length meds - i).
Proof.
  unfold batch_length, slice. rewrite length_firstn, length_skipn.
  f_equal. lia.
Qed.

Lemma insert_medicine_inserted (medicine : record) (c : conn) :
  has_schema c -> insertable medicine ->
  insert_medicine medicine c = (Ok tt, inserted c medicine).
Proof.
  intros Hs Hm. rewrite (insert_medicine_spec _ Hs).
  unfold insertable, stored_value in *.
  destruct (dict_find medicine productnaam) as [[s|]|]; try reflexivity.
  congruence.
Qed.

Lemma commit_sizes_app (ops1 ops2 : list op) :
  commit_sizes (ops1 ++ ops2) = commit_sizes ops1 ++ commit_sizes ops2.
Proof. apply flat_map_app. Qed.

(** The inserts of one batch: rows are added to the open transaction,
    nothing is committed. *)
Lemma forM_inserts (batch : list record) (c : conn) :
  has_schema c -> Forall insertable batch ->
  exists c',
    forM batch insert_medicine c = (Ok tt, c') /\
    has_schema c' /\
    committed c' = committed c /\
    length (rows (current c')) = length (rows (current c)) + length batch /\
    commit_sizes (trace c') = commit_sizes (trace c) /\
    (batch <> [] -> in_txn c' = true).
Proof.
  intros Hs Hall. revert c Hs.
  induction Hall as [|m batch Hm _ IH]; intros c Hs.
  - exists c. simpl. unfold ret.
    split; [reflexivity|]. split; [exact Hs|]. split; [reflexivity|].
    split; [lia|]. split; [reflexivity|]. intros H. congruence.
  - destruct (IH (inserted c m)) as [c' [Hrun [Hs' [Hc [Hlen [Hsz Htxn]]]]]].
    { exact Hs. }
    exists c'. simpl. unfold mbind.
    rewrite (insert_medicine_inserted Hs Hm), Hrun.
    split; [reflexivity|]. split; [exact Hs'|]. split; [exact Hc|].
    split; [|split].
    + rewrite Hlen. simpl. rewrite length_app. simpl. lia.
    + rewrite Hsz. simpl. rewrite commit_sizes_app. simpl. apply app_nil_r.
    + intros _. destruct batch as [|m' batch].
      * simpl in Hrun. unfold ret in Hrun. injection Hrun as <-. reflexivity.
      * apply Htxn. discriminate.
Qed.

(** One batch: its inserts, then one commit that covers them. *)
Lemma insert_batch_commits (meds : list record) (i : nat) (c : conn) :
  has_schema c -> committed c = current c ->
  Forall insertable meds -> i < length meds ->
  exists c',
    insert_batch meds i c = (Ok tt, c') /\
    has_schema c' /\
    committed c' = current c' /\
    length (rows (current c')) = length (rows (current c)) + batch_length meds i /\
    commit_sizes (trace c') = commit_sizes (trace c) ++ [batch_length meds i].
Proof.
  intros Hs Hsync Hall Hi.
  assert (Hbatch : Forall insertable (slice meds i (i + batch_size))).
  { apply Forall_forall. intros m Hm. apply in_slice in Hm.
    rewrite Forall_forall in Hall. apply Hall, Hm. }
  assert (Hne : slice meds i (i + batch_size) <> []).
  { intros E. apply (f_equal (@length _)) in E.
    fold (batch_length meds i) in E. rewrite batch_length_min in E.
    unfold batch_size in E. simpl length in E. lia. }
  destruct (forM_inserts Hs Hbatch) as [c1 [Hrun [Hs1 [Hc1 [Hlen [Hsz Htxn]]]]]].
  unfold insert_batch, mbind. rewrite Hrun.
  unfold commit. rewrite (Htxn Hne).
  eexists. split; [reflexivity|]. cbn [current committed trace].
  split; [exact Hs1|]. split; [reflexivity|]. split; [exact Hlen|].
  rewrite commit_sizes_app, Hsz. f_equal. simpl.
  rewrite Hc1, Hsync, Hlen. unfold batch_length. f_equal. lia.
Qed.

(** The batch loop: one commit for each batch, in order. *)
Lemma forM_batches (meds : list record) (starts : list nat) (c : conn) :
  has_schema c -> committed c = current c ->
  Forall insertable meds ->
  (forall i, In i starts -> i < length meds) ->
  exists c',
    forM starts (insert_batch meds) c = (Ok tt, c') /\
    committed c' = current c' /\
    length (rows (current c')) =
      length (rows (current c)) + list_sum (map (batch_length meds) starts) /\
    commit_sizes (trace c') =
      commit_sizes (trace c) ++ map (batch_length meds) starts.
Proof.
  intros Hs Hsync Hall. revert c Hs Hsync.
  induction starts as [|i starts IH]; intros c Hs Hsync Hlt.
  - exists c. simpl. unfold ret. rewrite app_nil_r.
    repeat split; [exact Hsync|lia].
  - destruct (@insert_batch_commits meds i c Hs Hsync Hall)
      as [c1 [Hrun1 [Hs1 [Hsync1 [Hlen1 Hsz1]]]]].
    { apply Hlt. left. reflexivity. }
    destruct (IH c1 Hs1 Hsync1) as [c' [Hrun [Hsync' [Hlen Hsz]]]].
    { intros j Hj. apply Hlt. right. exact Hj. }
    exists c'. simpl. unfold mbind. rewrite Hrun1, Hrun.
    split; [reflexivity|]. split; [exact Hsync'|]. split.
    + rewrite Hlen, Hlen1. lia.
    + rewrite Hsz, Hsz1, <- app_assoc. reflexivity.
Qed.

Lemma range_from_sum (meds : list record) (fuel start : nat) :
  length meds - start <= fuel ->
  list_sum (map (batch_length meds)
                (range_from fuel start (length meds) batch_size))
  = length meds - start.
Proof.
  revert start; induction fuel as [|fuel IH]; intros start Hfuel; simpl.
  - lia.
  - destruct (Nat.ltb_spec start (length meds)) as [Hlt|Hge]; simpl; [|lia].
    rewrite IH by (unfold batch_size; lia). rewrite batch_length_min.
    unfold batch_size. lia.
Qed.

(** The whole run on Records that can all be inserted. *)
Lemma migrate_run (w : world) (meds : list record) (c0 : conn) :
  json_file w = Some meds ->
  create_database (db_file w) = (Ok tt, c0) ->
  has_schema c0 ->
  Forall insertable meds ->
  exists c,
    migrate_json_to_sqlite w =
      Returned {| json_file := json_file w; db_file := Some (committed c);
                  store_ops := store_ops w ++ trace c |} /\
    commit_sizes (trace c) =
      map (batch_length meds) (range 0 (length meds) batch_size) /\
    length (rows (committed c)) = length (rows (committed c0)) + length meds.
Proof.
  unfold create_database. intros Hjson Hcreate Hs Hall.
  destruct (create_schema_ok Hcreate (connect_synced (db_file w)))
    as [[Hsync _] [_ [_ [_ [_ [_ [_ [Hsz _]]]]]]]].
  destruct (@forM_batches meds (range 0 (length meds) batch_size) c0 Hs Hsync Hall)
    as [c1 [Hrun [Hsync1 [Hlen1 Hsz1]]]].
  { intros i Hi. apply range_lt, Hi. }
  unfold migrate_json_to_sqlite. rewrite Hjson. unfold mbind at 1 2.
  rewrite Hcreate, Hrun. unfold close.
  eexists. split; [reflexivity|]. cbn [trace committed]. split.
  - rewrite commit_sizes_app, Hsz1, Hsz. simpl. apply app_nil_r.
  - rewrite Hsync1, Hlen1, Hsync. unfold range.
    rewrite range_from_sum by lia. lia.
Qed.

(** C2: with the batch size of 1000, the Loader commits once per batch:
    the commits sent to the store are those of the batches, in order, each
    covering the Records of its batch, ceil(N / 1000) of them for N
    Records; for 2500 Records they are three, of 1000, 1000 and 500
    Records. *)
Theorem one_commit_per_batch (w : world) (meds : list record) (c0 : conn) :
  json_file w = Some meds ->
  create_database (db_file w) = (Ok tt, c0) ->
  has_schema c0 ->
  Forall insertable meds ->
  exists w' ops,
    migrate_json_to_sqlite w = Returned w' /\
    store_ops w' = store_ops w ++ ops /\
    commit_sizes ops =
      map (fun i => Nat.min batch_size (length meds - i))
          (range 0 (length meds) batch_size) /\
    length (commit_sizes ops) = (length meds + 999) / 1000 /\
    list_sum (commit_sizes ops) = length meds /\
    (length meds = 2500 -> commit_sizes ops = [1000; 1000; 500]).
Proof.
  intros Hjson Hcreate Hs Hall.
  destruct (migrate_run w Hjson Hcreate Hs Hall) as [c [Hrun [Hsz _]]].
  eexists. exists (trace c). split; [exact Hrun|]. split; [reflexivity|].
  assert (Hmin : commit_sizes (trace c) =
                 map (fun i => Nat.min batch_size (length meds - i))
                     (range 0 (length meds) batch_size)).
  { rewrite Hsz. apply map_ext. intros i. apply batch_length_min. }
  split; [exact Hmin|]. split; [|split].
  - rewrite Hmin, length_map. apply range_length.
  - rewrite Hsz. unfold range. rewrite range_from_sum by lia. lia.
  - intros H2500. rewrite Hmin, H2500. vm_compute. reflexivity.
Qed.

Lemma one_commit_per_batch_witness :
  exists w' ops,
    migrate_json_to_sqlite world_2500 = Returned w' /\
    store_ops w' = ops /\
    commit_sizes ops = [1000; 1000; 500].
Proof.
  destruct (@one_commit_per_batch world_2500 (repeat sample_medicine 2500)
              sample_conn eq_refl eq_refl sample_conn_schema)
    as [w' [ops [Hrun [Hops [_ [_ [_ H2500]]]]]]].
  - apply Forall_forall. intros m Hm. apply repeat_spec in Hm. subst m.
    discriminate.
  - exists w', ops. split; [exact Hrun|]. split; [exact Hops|].
    apply H2500. apply repeat_length.
Defined.

(** The script calls [commit()] once more than there are batches: the
    call at the end of [create_database] finds no open transaction and
    sends nothing to the store. *)
Lemma create_schema_commit_call (c c' : conn) :
  create_schema c = (Ok tt, c') -> synced c ->
  commit_calls c' = S (commit_calls c) /\
  commit_sizes (trace c') = commit_sizes (trace c).
Proof.
  intros H Hs. split; [|apply (create_schema_ok H Hs)].
  unfold create_schema, mbind in H.
  destruct (create_table_if_not_exists medicines_table c) as [[[]|e] c1] eqn:E1;
    [|discriminate].
  destruct (create_index_if_not_exists idx_productnaam c1) as [[[]|e] c2] eqn:E2;
    [|discriminate].
  destruct (create_index_if_not_exists idx_werkzamestoffen c2) as [[[]|e] c3] eqn:E3;
    [|discriminate].
  destruct (create_index_if_not_exists idx_farmaceutischevorm c3) as [[[]|e] c4] eqn:E4;
    [|discriminate].
  assert (Hcalls : forall i a b, create_index_if_not_exists i a = (Ok tt, b) ->
                                 commit_calls b = commit_calls a).
  { intros i a b. unfold create_index_if_not_exists, mbind, log, get_current,
      ret, raise, ddl. cbn [current].
    destruct (find_table (idx_table i) (current a)); [|discriminate].
    destruct (find_table (idx_name i) (current a)); [discriminate|].
    destruct (has_index (idx_name i) (current a)); [intros [= <-]; reflexivity|].
    destruct (has_column _ _); [intros [= <-]; reflexivity|discriminate]. }
  assert (Hcall1 : commit_calls c1 = commit_calls c).
  { revert E1. unfold create_table_if_not_exists, mbind, log, get_current,
      ret, raise, ddl. cbn [current].
    destruct (find_table _ (current c)); [intros [= <-]; reflexivity|].
    destruct (has_index _ _); [discriminate|intros [= <-]; reflexivity]. }
  apply Hcalls in E2, E3, E4.
  unfold commit in H. destruct (in_txn c4); injection H as <-; simpl; congruence.
Qed.

(** ** The scenarios of the specification *)

(** A row REG123|Tablet|Aspirin 500mg under the header
    RegistratieNummer|Soort|ProductNaam becomes a Record with lower-case
    field names, and its row in the store has that product name. *)
Example aspirin_scenario :
  read_records [sample_header; [lit "REG123"; lit "Tablet"; lit "Aspirin 500mg"]]
  = Ok [[(lit "registratienummer", Some (lit "REG123"));
         (lit "soort", Some (lit "Tablet"));
         (lit "productnaam", Some (lit "Aspirin 500mg"))]]
  /\ dict_find (medicine_row [(lit "registratienummer", Some (lit "REG123"));
                              (lit "soort", Some (lit "Tablet"));
                              (lit "productnaam", Some (lit "Aspirin 500mg"))] 1)
               productnaam
     = Some (SqlText (lit "Aspirin 500mg")).
Proof. split; vm_compute; reflexivity. Qed.

(** A table with no data rows gives the empty sequence; loading it leaves
    the medicines table created and empty. *)
Example empty_scenario :
  read_records [sample_header] = Ok [] /\
  match migrate_json_to_sqlite
          {| json_file := Some []; db_file := None; store_ops := [] |} with
  | Returned w' =>
      option_map (fun db => (count_tables medicines db, rows db)) (db_file w')
      = Some (1, []) /\
      commit_sizes (store_ops w') = []
  | _ => False
  end.
Proof. vm_compute. repeat split. Qed.

(** ** Where the side conditions matter *)

(** Two header cells with the same name up to case share one field: the
    Record keeps one value for it. *)
Example colliding_header_cells :
  read_records [[lit "a"; lit "A"]; [lit "x"; lit "y"]]
  = Ok [[(lit "a", Some (lit "y"))]].
Proof. vm_compute. reflexivity. Qed.

(** When another header cell names the column exactly, the column takes
    that cell's value, whatever the padded cell holds. *)
Example padded_and_exact_header_cells :
  match read_records [[lit "productnaam"; lit " productnaam"];
                      [lit "Aspirin"; lit "Ibuprofen"]] with
  | Ok [rec] =>
      dict_find (medicine_row rec 1) productnaam = Some (SqlText (lit "Aspirin"))
  | _ => False
  end.
Proof. vm_compute. reflexivity. Qed.

(** * Further properties of the Normalizer *)

Lemma mapM_raise {A B} (f : A -> result B) (l : list A) (e : exn) :
  (forall a e', f a = Raise e' -> e' = e) ->
  (exists a, In a l /\ f a = Raise e) ->
  mapM f l = Raise e.
Proof.
  intros Honly. induction l as [|a l IH]; intros [a0 [Hin Ha0]]; [destruct Hin|].
  simpl. destruct (f a) as [b|e'] eqn:Ea; simpl.
  - destruct Hin as [->|Hin]; [congruence|].
    rewrite IH by (exists a0; tauto). reflexivity.
  - f_equal. apply (Honly a), Ea.
Qed.

Lemma clean_row_raises_only (fieldnames row : list str) (e : exn) :
  clean_row (dictreader_row fieldnames row) = Raise e -> e = AttributeError.
Proof.
  unfold clean_row. destruct (rest _); [congruence|discriminate].
Qed.

(** The conversion succeeds exactly when no row that is not blank has
    more cells than the header; otherwise it raises AttributeError. *)
Theorem read_records_succeeds_iff (fieldnames : list str) (rows : list (list str)) :
  (Forall (fun row => length row <= length fieldnames) (data_rows rows) <->
   exists recs, read_records (fieldnames :: rows) = Ok recs) /\
  (Exists (fun row => length fieldnames < length row) (data_rows rows) <->
   read_records (fieldnames :: rows) = Raise AttributeError).
Proof.
  simpl.
  assert (Hok : Forall (fun row => length row <= length fieldnames) (data_rows rows) ->
                exists recs, mapM (fun row => clean_row (dictreader_row fieldnames row))
                                  (data_rows rows) = Ok recs).
  { induction 1 as [|row l Hrow _ [recs IH]]; [exists []; reflexivity|].
    destruct (clean_row_short _ _ Hrow) as [rec Hrec].
    exists (rec :: recs). simpl. rewrite Hrec, IH. reflexivity. }
  assert (Hbad : Exists (fun row => length fieldnames < length row) (data_rows rows) ->
                 mapM (fun row => clean_row (dictreader_row fieldnames row))
                      (data_rows rows) = Raise AttributeError).
  { intros H. apply Exists_exists in H. destruct H as [row [Hin Hlong]].
    apply mapM_raise.
    - intros a e'. apply clean_row_raises_only.
    - exists row. split; [exact Hin|apply clean_row_long, Hlong]. }
  assert (Hdec : Forall (fun row => length row <= length fieldnames) (data_rows rows) \/
                 Exists (fun row => length fieldnames < length row) (data_rows rows)).
  { clear Hok Hbad. induction (data_rows rows) as [|row l [IH|IH]].
    - left. constructor.
    - destruct (Nat.le_gt_cases (length row) (length fieldnames)).
      + left. constructor; assumption.
      + right. apply Exists_cons_hd. assumption.
    - right. apply Exists_cons_tl. exact IH. }
  split; split.
  - exact Hok.
  - intros [recs Hrecs]. destruct Hdec as [H|H]; [exact H|].
    rewrite (Hbad H) in Hrecs. discriminate.
  - exact Hbad.
  - intros Hraise. destruct Hdec as [H|H]; [|exact H].
    destruct (Hok H) as [recs Hrecs]. congruence.
Qed.

Lemma data_rows_idempotent (rows : list (list str)) :
  data_rows (data_rows rows) = data_rows rows.
Proof.
  unfold data_rows. induction rows as [|row rows IH]; simpl; [reflexivity|].
  destruct (nonblank row) eqn:E; simpl; [rewrite E, IH|]; auto.
Qed.

(** The count [convert_csv_to_json] returns is the number of rows after
    the header that are not blank, and the document is the one of the
    table without its blank rows. *)
Theorem convert_counts_nonblank_rows (fieldnames : list str)
    (rows : list (list str)) (file : list Byte.byte) (n : nat) :
  convert_csv_to_json (fieldnames :: rows) = Ok (file, n) ->
  n = length (data_rows rows) /\
  convert_csv_to_json (fieldnames :: data_rows rows) = Ok (file, n).
Proof.
  unfold convert_csv_to_json. cbn [read_records].
  rewrite data_rows_idempotent.
  destruct (mapM _ (data_rows rows)) as [recs|e] eqn:E; simpl; [|discriminate].
  intros [= <- <-]. split; [|reflexivity].
  apply mapM_Forall2 in E. symmetry. eapply Forall2_length, E.
Qed.

Lemma convert_counts_nonblank_rows_witness :
  2 = length (data_rows (tl blank_rows_table)) /\
  convert_csv_to_json (hd [] blank_rows_table :: data_rows (tl blank_rows_table))
  = Ok (fst (match convert_csv_to_json blank_rows_table with
             | Ok r => r
             | Raise _ => ([], 0)
             end), 2).
Proof.
  apply (@convert_counts_nonblank_rows (hd [] blank_rows_table)
           (tl blank_rows_table)).
  vm_compute. reflexivity.
Defined.

Lemma strip_all_space (s : str) : forallb is_space s = true -> strip s = [].
Proof.
  intros H. unfold strip, rstrip.
  assert (E : lstrip s = []).
  { induction s as [|c s IH]; simpl in *; [reflexivity|].
    apply andb_prop in H. destruct H as [-> H]. apply IH, H. }
  rewrite E. reflexivity.
Qed.

Lemma strip_fixed (s : str) : padded s = false -> strip s = s.
Proof.
  unfold padded, ends_with_space. intros H. apply orb_false_elim in H.
  destruct H as [H1 H2]. unfold strip, rstrip.
  rewrite (lstrip_fixed _ H1), (lstrip_fixed _ H2). apply rev_involutive.
Qed.

Lemma clean_value_unpadded (v : option str) (s : str) :
  clean_value v = Some s -> padded s = false.
Proof.
  destruct v as [[|c t]|]; simpl; try discriminate.
  - intros [= <-]. reflexivity.
  - intros [= <-]. destruct (strip_spec (c :: t)) as [p [q [_ [_ [_ H]]]]].
    exact H.
Qed.

Lemma clean_value_fixed (v : option str) :
  (forall s, v = Some s -> padded s = false) -> clean_value v = v.
Proof.
  destruct v as [[|c t]|]; simpl; intros H; try reflexivity.
  rewrite strip_fixed; [reflexivity|]. apply H. reflexivity.
Qed.

Lemma read_records_clean (table : list (list str)) (recs : list record)
    (rec : record) :
  read_records table = Ok recs -> In rec recs ->
  exists items, rec = clean_items items.
Proof.
  destruct table as [|fieldnames rows]; simpl.
  - intros [= <-] [].
  - intros H Hin. apply mapM_Forall2 in H.
    induction H as [|row rec' l recs' Hrow _ IH]; [destruct Hin|].
    destruct Hin as [->|Hin]; [|exact (IH Hin)].
    apply clean_row_ok in Hrow. destruct Hrow as [_ ->].
    eexists. reflexivity.
Qed.

Lemma clean_items_values (items : list (str * option str)) k v :
  In (k, v) (clean_items items) ->
  lower k = k /\ clean_value v = v.
Proof.
  unfold clean_items. intros H. apply in_dict_of_items, in_map_iff in H.
  destruct H as [[k0 v0] [E _]]. simpl in E. injection E as <- <-.
  split; [apply lower_idempotent|].
  apply clean_value_fixed. intros s Hs. apply (@clean_value_unpadded _ _ Hs).
Qed.

(** No text the Normalizer emits has whitespace at either end: in every
    Record of every successful conversion, every value that is not null
    starts and ends with a character that is not whitespace, or is
    empty. *)
Theorem emitted_values_unpadded (table : list (list str)) (recs : list record)
    (rec : record) (k s : str) :
  read_records table = Ok recs ->
  In rec recs -> In (k, Some s) rec ->
  padded s = false /\ strip s = s.
Proof.
  intros Hrecs Hrec Hin.
  destruct (@read_records_clean _ _ _ Hrecs Hrec) as [items ->].
  apply clean_items_values in Hin. destruct Hin as [_ Hv].
  assert (Hp : padded s = false) by (apply (@clean_value_unpadded _ _ Hv)).
  split; [exact Hp|apply strip_fixed, Hp].
Qed.

Lemma emitted_values_unpadded_witness :
  padded (lit "Tablet") = false /\ strip (lit "Tablet") = lit "Tablet".
Proof.
  apply (@emitted_values_unpadded (sample_header :: sample_rows) sample_records
           (nth 0 sample_records []) (lit "soort") (lit "Tablet")).
  - reflexivity.
  - left. reflexivity.
  - right. left. reflexivity.
Defined.

(** Running the comprehension of the conversion loop on a Record it
    emitted gives that Record back: the names are lower-case already, the
    values stripped already, and no two names collide. *)
Theorem clean_items_idempotent (table : list (list str)) (recs : list record)
    (rec : record) :
  read_records table = Ok recs -> In rec recs ->
  clean_items rec = rec.
Proof.
  intros Hrecs Hrec.
  assert (Hwf : wf_dict rec).
  { pose proof (read_records_wf _ Hrecs) as H. rewrite Forall_forall in H.
    apply H, Hrec. }
  destruct (@read_records_clean _ _ _ Hrecs Hrec) as [items E].
  unfold clean_items at 1.
  replace (map (fun kv => (lower (fst kv), clean_value (snd kv))) rec) with rec.
  - apply dict_of_items_wf, Hwf.
  - rewrite <- (map_id rec) at 1. apply map_ext_in. intros [k v] Hkv.
    rewrite E in Hkv. apply clean_items_values in Hkv. destruct Hkv as [Hk Hv].
    simpl. rewrite Hk, Hv. reflexivity.
Qed.

Lemma clean_items_idempotent_witness :
  clean_items (nth 1 sample_records []) = nth 1 sample_records [].
Proof.
  apply (@clean_items_idempotent (sample_header :: sample_rows) sample_records).
  - reflexivity.
  - right. left. reflexivity.
Defined.

Lemma combine_repeat_None (fieldnames : list str) :
  combine fieldnames (repeat (@None str) (length fieldnames))
  = map (fun key => (key, None)) fieldnames.
Proof.
  induction fieldnames as [|h l IH]; simpl; [reflexivity|]. rewrite IH. reflexivity.
Qed.

Lemma row_items_cells (fieldnames row : list str) :
  length row <= length fieldnames ->
  row_items fieldnames row = combine fieldnames (cells fieldnames row).
Proof.
  unfold row_items, cells. revert fieldnames.
  induction row as [|s row IH]; intros fieldnames Hlen.
  - simpl. rewrite combine_nil, Nat.sub_0_r, combine_repeat_None. reflexivity.
  - destruct fieldnames as [|h fieldnames]; simpl in Hlen; [lia|].
    simpl. rewrite IH by lia. reflexivity.
Qed.

Lemma cells_length (fieldnames row : list str) :
  length row <= length fieldnames ->
  length (cells fieldnames row) = length fieldnames.
Proof.
  intros H. unfold cells. rewrite length_app, length_map, repeat_length. lia.
Qed.

Lemma keys_combine {V} (ks : list str) (vs : list V) :
  length vs = length ks -> keys (combine ks vs) = ks.
Proof.
  unfold keys. revert vs; induction ks as [|k ks IH]; intros [|v vs] H;
    simpl in *; try reflexivity; try discriminate.
  rewrite IH by lia. reflexivity.
Qed.

Lemma map_combine_clean (ks : list str) (vs : list (option str)) :
  map (fun kv => (lower (fst kv), clean_value (snd kv))) (combine ks vs)
  = combine (map lower ks) (map clean_value vs).
Proof.
  revert vs; induction ks as [|k ks IH]; intros [|v vs]; simpl; try reflexivity.
  rewrite IH. reflexivity.
Qed.

Lemma clean_row_closed_form (fieldnames row : list str) :
  NoDup (map lower fieldnames) ->
  length row <= length fieldnames ->
  clean_row (dictreader_row fieldnames row)
  = Ok (combine (map lower fieldnames)
                (map clean_value (cells fieldnames row))).
Proof.
  intros Hnd Hlen. rewrite (fields_row_items _ _ Hlen). unfold clean_row. simpl.
  f_equal. rewrite (row_items_cells _ _ Hlen).
  pose proof (cells_length _ _ Hlen) as Hc.
  assert (Hwf : wf_dict (combine fieldnames (cells fieldnames row))).
  { unfold wf_dict. rewrite keys_combine by exact Hc.
    apply (NoDup_map_inv lower), Hnd. }
  rewrite (dict_of_items_wf Hwf), map_combine_clean.
  apply dict_of_items_wf.
  unfold wf_dict. rewrite keys_combine; [exact Hnd|].
  rewrite !length_map. exact Hc.
Qed.

Lemma mapM_ok {A B} (f : A -> result B) (g : A -> B) (l : list A) :
  (forall a, In a l -> f a = Ok (g a)) -> mapM f l = Ok (map g l).
Proof.
  induction l as [|a l IH]; intros H; simpl; [reflexivity|].
  rewrite (H a) by (left; reflexivity). simpl.
  rewrite IH by (intros b Hb; apply H; right; exact Hb). reflexivity.
Qed.

(** When the header names are distinct up to case and no row is longer
    than the header, each Record has one field per header cell, in header
    order: the lower-cased name bound to the cleaned cell, or to null
    where the row is too short. *)
Theorem records_follow_header (fieldnames : list str) (rows : list (list str)) :
  NoDup (map lower fieldnames) ->
  Forall (fun row => length row <= length fieldnames) (data_rows rows) ->
  read_records (fieldnames :: rows)
  = Ok (map (fun row => combine (map lower fieldnames)
                                (map clean_value (cells fieldnames row)))
            (data_rows rows)).
Proof.
  intros Hnd Hlen. simpl. apply mapM_ok. intros row Hrow.
  rewrite Forall_forall in Hlen. apply clean_row_closed_form; auto.
Qed.

Lemma sample_header_nodup : NoDup (map lower sample_header).
Proof.
  repeat constructor; simpl; intros H;
    repeat (destruct H as [H|H]; [discriminate H|]); exact H.
Qed.

Lemma records_follow_header_witness :
  read_records (sample_header :: sample_rows)
  = Ok (map (fun row => combine (map lower sample_header)
                                (map clean_value (cells sample_header row)))
            (data_rows sample_rows)).
Proof.
  apply (@records_follow_header sample_header sample_rows sample_header_nodup).
  repeat constructor.
Defined.

(** A cell that is empty or holds only whitespace is emitted as the empty
    string, which is not null. *)
Theorem blank_cell_emitted_empty (fieldnames : list str)
    (rows : list (list str)) (recs : list record) i row rec j h s :
  read_records (fieldnames :: rows) = Ok recs ->
  nth_error (data_rows rows) i = Some row ->
  nth_error recs i = Some rec ->
  nth_error fieldnames j = Some h ->
  (forall j' h', nth_error fieldnames j' = Some h' ->
                 lower h' = lower h -> j' = j) ->
  nth_error row j = Some s ->
  forallb is_space s = true ->
  dict_find rec (lower h) = Some (Some []).
Proof.
  intros Hrecs Hrow Hrec Hj Huniq Hs Hblank.
  pose proof (@read_records_nth _ _ _ _ _ _ Hrecs Hrow Hrec) as Hclean.
  rewrite (@clean_row_find _ _ _ _ _ Hclean Hj Huniq), Hs.
  destruct s as [|c t]; [reflexivity|]. simpl.
  rewrite (strip_all_space _ Hblank). reflexivity.
Qed.

Lemma blank_cell_emitted_empty_witness :
  dict_find (nth 0 blank_records []) (lit "soort") = Some (Some []).
Proof.
  refine (@blank_cell_emitted_empty (hd [] blank_rows_table)
            (tl blank_rows_table) blank_records 0 [lit " x "; lit "   "]
            (nth 0 blank_records []) 1 (lit "Soort") (lit "   ")
            eq_refl eq_refl eq_refl eq_refl _ eq_refl eq_refl).
  intros [|[|[|j']]] h' Hj' E; simpl in Hj'; try discriminate Hj';
    try (destruct j'; discriminate Hj'); try reflexivity.
  injection Hj' as <-. discriminate E.
Defined.

(** ** The Normalizer's [main] *)

(** [main] writes the output file only after a conversion that did not
    raise.  With no input file it returns 1 and leaves the files as they
    are; when the conversion raises, the files are as they are; otherwise
    it returns 0, the output file is the document of the Records, reading
    it back never fails, and the sample it shows is the first Record. *)
Theorem main_outcomes (fs : files) :
  match main fs with
  | MainReturned status fs' sample =>
      (status = 1 /\ csv_file fs = None /\ fs' = fs /\ sample = None) \/
      (status = 0 /\
       exists table recs,
         csv_file fs = Some table /\ read_records table = Ok recs /\
         csv_file fs' = csv_file fs /\
         json_out fs' = Some (write_json recs) /\
         sample = hd_error recs)
  | MainRaised e fs' =>
      fs' = fs /\
      exists table, csv_file fs = Some table /\ read_records table = Raise e
  | MainDecodeError _ => False
  end.
Proof.
  unfold main, convert_csv_to_json.
  destruct (csv_file fs) as [table|] eqn:Ecsv.
  - destruct (read_records table) as [recs|e] eqn:Erecs; simpl.
    + rewrite (read_write_json (read_records_wf _ Erecs)).
      right. split; [reflexivity|]. exists table, recs. auto.
    + split; [reflexivity|]. exists table. auto.
  - left. auto.
Qed.

(** * Further properties of the Loader *)

(** ** Fields outside the schema *)

Lemma dict_find_set_other {V} (d : dict V) k v k' :
  k <> k' -> dict_find (dict_set d k v) k' = dict_find d k'.
Proof. intros H. rewrite dict_find_set, (str_eqb_neq H). reflexivity. Qed.

Lemma insert_params_ext (m1 m2 : record) :
  (forall k, In k param_keys -> dict_find m1 k = dict_find m2 k) ->
  insert_params m1 = insert_params m2.
Proof.
  intros H. unfold insert_params. apply map_ext_in. intros k Hk.
  unfold dict_get. rewrite (H k Hk). reflexivity.
Qed.

(** A field whose name is none of the 27 keys is ignored: setting it in a
    Record changes neither the row the Loader builds nor what the INSERT
    does. *)
Theorem unknown_field_ignored (medicine : record) (k : str) (v : option str) :
  ~ In k param_keys ->
  (forall id, medicine_row (dict_set medicine k v) id = medicine_row medicine id) /\
  (forall c, insert_medicine (dict_set medicine k v) c = insert_medicine medicine c).
Proof.
  intros Hk.
  assert (E : insert_params (dict_set medicine k v) = insert_params medicine).
  { apply insert_params_ext. intros k' Hk'. apply dict_find_set_other.
    intros ->. exact (Hk Hk'). }
  split.
  - intros id. unfold medicine_row. rewrite E. reflexivity.
  - intros c. unfold insert_medicine. rewrite E. reflexivity.
Qed.

Lemma unknown_field_ignored_witness :
  (forall id, medicine_row extra_field_medicine id = medicine_row sample_medicine id) /\
  (forall c, insert_medicine extra_field_medicine c = insert_medicine sample_medicine c).
Proof.
  apply (@unknown_field_ignored sample_medicine (lit "opmerking") (Some (lit "n.v.t."))).
  intros H. unfold param_keys in H.
  repeat (destruct H as [H|H]; [discriminate H|]). exact H.
Defined.

(** ** The batches *)

Lemma firstn_add {A} (a b : nat) (l : list A) :
  firstn (a + b) l = firstn a l ++ firstn b (skipn a l).
Proof.
  revert l; induction a as [|a IH]; intros l; simpl; [reflexivity|].
  destruct l as [|x l]; simpl.
  - rewrite firstn_nil. reflexivity.
  - rewrite IH. reflexivity.
Qed.

Lemma slice_skipn (meds : list record) (i : nat) :
  slice meds i (i + batch_size) ++ skipn (i + batch_size) meds = skipn i meds.
Proof.
  unfold slice. replace (i + batch_size - i) with batch_size by lia.
  rewrite Nat.add_comm, <- skipn_skipn. apply firstn_skipn.
Qed.

Lemma concat_range_from (meds : list record) (fuel start : nat) :
  length meds - start <= fuel ->
  concat (map (fun i => slice meds i (i + batch_size))
              (range_from fuel start (length meds) batch_size))
  = skipn start meds.
Proof.
  revert start; induction fuel as [|fuel IH]; intros start Hfuel; simpl.
  - rewrite skipn_all2 by lia. reflexivity.
  - destruct (Nat.ltb_spec start (length meds)) as [Hlt|Hge]; simpl.
    + rewrite IH by (unfold batch_size; lia). apply slice_skipn.
    + rewrite skipn_all2 by lia. reflexivity.
Qed.

(** The batches partition the document: put end to end, in the order of
    the loop, they are the list of Records; none is empty and none has
    more than 1000 Records. *)
Theorem batches_partition (meds : list record) :
  concat (batches meds) = meds /\
  Forall (fun b => 0 < length b <= batch_size) (batches meds).
Proof.
  unfold batches. split.
  - unfold range. rewrite concat_range_from by lia. reflexivity.
  - apply Forall_forall. intros b Hb. apply in_map_iff in Hb.
    destruct Hb as [i [<- Hi]]. apply range_lt in Hi.
    fold (batch_length meds i). rewrite batch_length_min.
    unfold batch_size. lia.
Qed.

(** ** Rows in document order *)

Lemma rows_from_app (id : nat) (a b : list record) :
  rows_from id (a ++ b) = rows_from id a ++ rows_from (id + length a) b.
Proof.
  revert id; induction a as [|m a IH]; intros id; simpl.
  - rewrite Nat.add_0_r. reflexivity.
  - rewrite IH. do 3 f_equal. lia.
Qed.

Lemma rows_from_length (id : nat) (meds : list record) :
  length (rows_from id meds) = length meds.
Proof.
  revert id; induction meds as [|m meds IH]; intros id; simpl; [reflexivity|].
  rewrite IH. reflexivity.
Qed.

Lemma rows_from_nth (id : nat) (meds : list record) (k : nat) (m : record) :
  nth_error meds k = Some m ->
  nth_error (rows_from id meds) k = Some (medicine_row m (id + k + 1)).
Proof.
  revert id k; induction meds as [|m0 meds IH]; intros id [|k]; simpl;
    try discriminate.
  - intros [= ->]. do 2 f_equal. lia.
  - intros H. rewrite (IH (S id) k H). do 2 f_equal. lia.
Qed.

Lemma has_schema_tables (c c' : conn) :
  tables (current c') = tables (current c) -> has_schema c -> has_schema c'.
Proof. unfold has_schema, find_table. intros ->. auto. Qed.

(** The inserts of a batch, with the rows they add. *)
Lemma forM_inserts_rows (batch : list record) (c : conn) :
  has_schema c -> Forall insertable batch ->
  exists c',
    forM batch insert_medicine c = (Ok tt, c') /\
    tables (current c') = tables (current c) /\
    indexes (current c') = indexes (current c) /\
    committed c' = committed c /\
    rows (current c') = rows (current c) ++ rows_from (last_id (current c)) batch /\
    last_id (current c') = last_id (current c) + length batch /\
    commit_sizes (trace c') = commit_sizes (trace c) /\
    (batch <> [] -> in_txn c' = true).
Proof.
  intros Hs Hall. revert c Hs.
  induction Hall as [|m batch Hm _ IH]; intros c Hs.
  - exists c. simpl. unfold ret. rewrite app_nil_r, Nat.add_0_r.
    repeat (split; [reflexivity|]). intros H. congruence.
  - destruct (IH (inserted c m)) as [c' [Hrun [Ht [Hi [Hc [Hr [Hl [Hsz Htxn]]]]]]]].
    { exact Hs. }
    exists c'. simpl. unfold mbind.
    rewrite (insert_medicine_inserted Hs Hm), Hrun.
    split; [reflexivity|]. split; [exact Ht|]. split; [exact Hi|].
    split; [exact Hc|]. split; [|split; [|split]].
    + rewrite Hr. simpl. rewrite <- app_assoc. reflexivity.
    + rewrite Hl. simpl. lia.
    + rewrite Hsz. simpl. rewrite commit_sizes_app. simpl. apply app_nil_r.
    + intros _. destruct batch as [|m' batch].
      * simpl in Hrun. unfold ret in Hrun. injection Hrun as <-. reflexivity.
      * apply Htxn. discriminate.
Qed.

Lemma slice_nonempty (meds : list record) (i : nat) :
  i < length meds -> slice meds i (i + batch_size) <> [].
Proof.
  intros Hi E. apply (f_equal (@length _)) in E.
  fold (batch_length meds i) in E. rewrite batch_length_min in E.
  unfold batch_size in E. simpl length in E. lia.
Qed.

(** One batch whose Records can all be inserted. *)
Lemma insert_batch_rows (meds : list record) (i : nat) (c : conn) :
  has_schema c -> committed c = current c ->
  Forall insertable (slice meds i (i + batch_size)) -> i < length meds ->
  exists c',
    insert_batch meds i c = (Ok tt, c') /\
    tables (current c') = tables (current c) /\
    indexes (current c') = indexes (current c) /\
    committed c' = current c' /\
    rows (current c') =
      rows (current c)
      ++ rows_from (last_id (current c)) (slice meds i (i + batch_size)) /\
    last_id (current c') = last_id (current c) + batch_length meds i /\
    commit_sizes (trace c') = commit_sizes (trace c) ++ [batch_length meds i].
Proof.
  intros Hs Hsync Hbatch Hi.
  destruct (forM_inserts_rows Hs Hbatch)
    as [c1 [Hrun [Ht [Hix [Hc1 [Hr [Hl [Hsz Htxn]]]]]]]].
  unfold insert_batch, mbind. rewrite Hrun.
  unfold commit. rewrite (Htxn (slice_nonempty meds Hi)).
  eexists. split; [reflexivity|]. cbn [current committed trace].
  split; [exact Ht|]. split; [exact Hix|]. split; [reflexivity|].
  split; [exact Hr|]. split; [exact Hl|].
  rewrite commit_sizes_app, Hsz. f_equal. simpl.
  rewrite Hc1, Hsync, Hr, length_app, rows_from_length.
  unfold batch_length. f_equal. lia.
Qed.

(** The batch loop from the batch that starts at [start]. *)
Lemma forM_range_rows (meds : list record) (fuel start : nat) (c : conn) :
  length meds - start <= fuel ->
  has_schema c -> committed c = current c ->
  Forall insertable meds ->
  exists c',
    forM (range_from fuel start (length meds) batch_size) (insert_batch meds) c
    = (Ok tt, c') /\
    tables (current c') = tables (current c) /\
    indexes (current c') = indexes (current c) /\
    committed c' = current c' /\
    rows (current c') =
      rows (current c) ++ rows_from (last_id (current c)) (skipn start meds) /\
    last_id (current c') = last_id (current c) + (length meds - start).
Proof.
  intros Hfuel Hs Hsync Hall. revert start c Hfuel Hs Hsync.
  induction fuel as [|fuel IH]; intros start c Hfuel Hs Hsync.
  - exists c. simpl. unfold ret. rewrite skipn_all2 by lia. simpl.
    rewrite app_nil_r. replace (length meds - start) with 0 by lia.
    rewrite Nat.add_0_r.
    split; [reflexivity|]. split; [reflexivity|]. split; [reflexivity|].
    split; [exact Hsync|]. split; reflexivity.
  - simpl. destruct (Nat.ltb_spec start (length meds)) as [Hlt|Hge].
    + assert (Hbatch : Forall insertable (slice meds start (start + batch_size))).
      { apply Forall_forall. intros m Hm. apply in_slice in Hm.
        rewrite Forall_forall in Hall. apply Hall, Hm. }
      destruct (@insert_batch_rows meds start c Hs Hsync Hbatch Hlt)
        as [c1 [Hrun1 [Ht1 [Hi1 [Hsync1 [Hr1 [Hl1 _]]]]]]].
      destruct (IH (start + batch_size) c1) as [c' [Hrun [Ht [Hi [Hsync' [Hr Hl]]]]]].
      { unfold batch_size. lia. }
      { exact (@has_schema_tables c c1 Ht1 Hs). }
      { exact Hsync1. }
      exists c'. simpl. unfold mbind. rewrite Hrun1, Hrun.
      split; [reflexivity|]. split; [congruence|]. split; [congruence|].
      split; [exact Hsync'|]. split.
      * rewrite Hr, Hr1, Hl1, <- app_assoc. f_equal.
        unfold batch_length. rewrite <- rows_from_app, slice_skipn.
        reflexivity.
      * rewrite Hl, Hl1, batch_length_min. unfold batch_size. lia.
    + exists c. simpl. unfold ret. rewrite skipn_all2 by lia. simpl.
      rewrite app_nil_r. replace (length meds - start) with 0 by lia.
      rewrite Nat.add_0_r.
    split; [reflexivity|]. split; [reflexivity|]. split; [reflexivity|].
    split; [exact Hsync|]. split; reflexivity.
Qed.

(** The whole run, with the rows it stores. *)
Lemma migrate_run_rows (w : world) (meds : list record) (c0 : conn) :
  json_file w = Some meds ->
  create_database (db_file w) = (Ok tt, c0) ->
  has_schema c0 ->
  Forall insertable meds ->
  exists w' db,
    migrate_json_to_sqlite w = Returned w' /\
    json_file w' = Some meds /\
    db_file w' = Some db /\
    tables db = tables (committed c0) /\
    indexes db = indexes (committed c0) /\
    rows db = rows (committed c0) ++ rows_from (last_id (committed c0)) meds /\
    last_id db = last_id (committed c0) + length meds.
Proof.
  unfold create_database. intros Hjson Hcreate Hs Hall.
  destruct (create_schema_ok Hcreate (connect_synced (db_file w)))
    as [[Hsync _] _].
  destruct (@forM_range_rows meds (length meds) 0 c0 (Nat.le_sub_l _ _) Hs Hsync Hall)
    as [c1 [Hrun [Ht [Hi [Hsync1 [Hr Hl]]]]]].
  unfold migrate_json_to_sqlite. rewrite Hjson. unfold mbind at 1 2.
  rewrite Hcreate. fold (range 0 (length meds) batch_size) in Hrun.
  rewrite Hrun. unfold close. cbn [committed trace].
  eexists. exists (committed c1). split; [reflexivity|]. cbn [json_file db_file].
  split; [reflexivity|]. split; [reflexivity|].
  rewrite Hsync1, Hsync. simpl in Hr. rewrite Nat.sub_0_r in Hl.
  split; [exact Ht|]. split; [exact Hi|]. split; [exact Hr|exact Hl].
Qed.

(** ** Schema creation and the rows of the store *)

Lemma data_kept_refl (c : conn) : data_kept c c.
Proof. repeat split. Qed.

Lemma data_kept_trans (c1 c2 c3 : conn) :
  data_kept c1 c2 -> data_kept c2 c3 -> data_kept c1 c3.
Proof.
  unfold data_kept. intros [A1 [A2 [A3 [A4 A5]]]] [B1 [B2 [B3 [B4 B5]]]].
  repeat split; congruence.
Qed.

Lemma create_table_data (t : table) (c : conn) :
  data_kept c (snd (create_table_if_not_exists t c)).
Proof.
  unfold create_table_if_not_exists, mbind, log, get_current, ret, raise, ddl.
  cbn [current]. destruct (find_table (tbl_name t) (current c)).
  - repeat split.
  - destruct (has_index (tbl_name t) (current c)); repeat split.
Qed.

Lemma create_index_data (i : index) (c : conn) :
  data_kept c (snd (create_index_if_not_exists i c)).
Proof.
  unfold create_index_if_not_exists, mbind, log, get_current, ret, raise, ddl.
  cbn [current]. destruct (find_table (idx_table i) (current c)) as [t|].
  - destruct (find_table (idx_name i) (current c)); [repeat split|].
    destruct (has_index (idx_name i) (current c)); [repeat split|].
    destruct (has_column (idx_col i) t); repeat split.
  - repeat split.
Qed.

Lemma commit_data (c : conn) :
  in_txn c = false -> data_kept c (snd (commit c)).
Proof. intros H. unfold commit. rewrite H. repeat split. simpl. auto. Qed.

Lemma snd_mbind {A B} (m : M A) (f : A -> M B) (c : conn) (P : conn -> Prop) :
  P (snd (m c)) ->
  (forall a, fst (m c) = Ok a -> P (snd (f a (snd (m c))))) ->
  P (snd (mbind m f c)).
Proof.
  unfold mbind. destruct (m c) as [[a|e] c1]; simpl; intros H1 H2.
  - apply H2. reflexivity.
  - exact H1.
Qed.

Lemma create_schema_data (c : conn) :
  in_txn c = false -> data_kept c (snd (create_schema c)).
Proof.
  intros Htxn. unfold create_schema.
  pose proof (create_table_data medicines_table c) as H1.
  apply snd_mbind; [exact H1|]. intros _ _.
  set (c1 := snd (create_table_if_not_exists medicines_table c)) in *.
  pose proof (data_kept_trans H1 (create_index_data idx_productnaam c1)) as H2.
  apply snd_mbind; [exact H2|]. intros _ _.
  set (c2 := snd (create_index_if_not_exists idx_productnaam c1)) in *.
  pose proof (data_kept_trans H2 (create_index_data idx_werkzamestoffen c2)) as H3.
  apply snd_mbind; [exact H3|]. intros _ _.
  set (c3 := snd (create_index_if_not_exists idx_werkzamestoffen c2)) in *.
  pose proof (data_kept_trans H3 (create_index_data idx_farmaceutischevorm c3)) as H4.
  apply snd_mbind; [exact H4|]. intros _ _.
  set (c4 := snd (create_index_if_not_exists idx_farmaceutischevorm c3)) in *.
  apply (data_kept_trans H4), commit_data.
  destruct H4 as [E _]. congruence.
Qed.

(** Schema creation never touches the data: whether [create_database]
    returns or raises, the rows of the store and its id counter are what
    they were in the file (none and zero for a new store). *)
Theorem create_database_keeps_rows (file : option database) :
  rows (committed (snd (create_database file))) = file_rows file /\
  last_id (committed (snd (create_database file))) = file_last_id file.
Proof.
  unfold create_database.
  destruct (create_schema_data (connect file) eq_refl) as [_ [Hr [Hl _]]].
  split.
  - rewrite Hr. destruct file; reflexivity.
  - rewrite Hl. destruct file; reflexivity.
Qed.

Lemma create_database_ok_data (file : option database) (c0 : conn) :
  create_database file = (Ok tt, c0) ->
  rows (committed c0) = file_rows file /\
  last_id (committed c0) = file_last_id file.
Proof.
  intros H. unfold create_database in *.
  destruct (create_schema_data (connect file) eq_refl) as [_ [Hr [Hl _]]].
  rewrite H in Hr, Hl. simpl in Hr, Hl. split.
  - rewrite Hr. destruct file; reflexivity.
  - rewrite Hl. destruct file; reflexivity.
Qed.

(** Every Record is stored once, in the order of the document, after the
    rows the store had: the Record at index k becomes the row at index
    (old row count + k), with id (old id counter + k + 1). *)
Theorem records_stored_in_order (w : world) (meds : list record) (c0 : conn) :
  json_file w = Some meds ->
  create_database (db_file w) = (Ok tt, c0) ->
  has_schema c0 ->
  Forall insertable meds ->
  exists w' db,
    migrate_json_to_sqlite w = Returned w' /\
    db_file w' = Some db /\
    length (rows db) = length (file_rows (db_file w)) + length meds /\
    firstn (length (file_rows (db_file w))) (rows db) = file_rows (db_file w) /\
    last_id db = file_last_id (db_file w) + length meds /\
    forall k m, nth_error meds k = Some m ->
      nth_error (rows db) (length (file_rows (db_file w)) + k)
      = Some (medicine_row m (file_last_id (db_file w) + k + 1)).
Proof.
  intros Hjson Hcreate Hs Hall.
  destruct (migrate_run_rows w Hjson Hcreate Hs Hall)
    as [w' [db [Hrun [_ [Hdb [_ [_ [Hr Hl]]]]]]]].
  destruct (create_database_ok_data _ Hcreate) as [Er El].
  rewrite Er, El in *.
  exists w', db. split; [exact Hrun|]. split; [exact Hdb|].
  split; [|split; [|split]].
  - rewrite Hr, length_app, rows_from_length. reflexivity.
  - rewrite Hr, firstn_app, Nat.sub_diag, firstn_all. simpl. apply app_nil_r.
  - exact Hl.
  - intros k m Hk. rewrite Hr, nth_error_app2 by lia.
    replace (length (file_rows (db_file w)) + k - length (file_rows (db_file w)))
      with k by lia.
    apply rows_from_nth, Hk.
Qed.

Lemma three_insertable : Forall insertable three_medicines.
Proof. repeat constructor; discriminate. Qed.

Lemma records_stored_in_order_witness :
  exists w' db,
    migrate_json_to_sqlite world_three = Returned w' /\
    db_file w' = Some db /\
    length (rows db) = 0 + 3 /\
    firstn 0 (rows db) = [] /\
    last_id db = 0 + 3 /\
    forall k m, nth_error three_medicines k = Some m ->
      nth_error (rows db) (0 + k) = Some (medicine_row m (0 + k + 1)).
Proof.
  apply (@records_stored_in_order world_three three_medicines sample_conn
           eq_refl eq_refl sample_conn_schema three_insertable).
Defined.

(** ** Running the Loader again *)

Lemma index_ready_same_catalog (i : index) (db db' : database) :
  tables db' = tables db -> indexes db' = indexes db ->
  index_ready i db -> index_ready i db'.
Proof.
  unfold index_ready, find_table, has_index. intros -> ->. auto.
Qed.

(** After a run that returned, schema creation finds everything in place
    and the store as the run left it. *)
Lemma create_database_after_run (file : option database) (c0 : conn)
    (db : database) :
  create_database file = (Ok tt, c0) ->
  has_schema c0 ->
  tables db = tables (committed c0) ->
  indexes db = indexes (committed c0) ->
  exists c1, create_database (Some db) = (Ok tt, c1) /\
             has_schema c1 /\ committed c1 = db.
Proof.
  unfold create_database. intros Hcreate Hs Ht Hi.
  destruct (create_schema_ok Hcreate (connect_synced file))
    as [[Hsync _] [Hm [H1 [H2 [H3 _]]]]].
  rewrite <- Hsync in Hm, H1, H2, H3.
  assert (Hs' : find_table medicines db = Some medicines_table).
  { unfold has_schema in Hs. rewrite <- Hsync in Hs.
    unfold find_table in *. rewrite Ht. exact Hs. }
  destruct (@create_schema_noop (connect (Some db)) eq_refl) as [c1 [Hrun [Hc Hcur]]].
  - simpl. rewrite Hs'. discriminate.
  - exact (@index_ready_same_catalog idx_productnaam _ db Ht Hi H1).
  - exact (@index_ready_same_catalog idx_werkzamestoffen _ db Ht Hi H2).
  - exact (@index_ready_same_catalog idx_farmaceutischevorm _ db Ht Hi H3).
  - exists c1. split; [exact Hrun|]. split; [|exact Hc].
    unfold has_schema. rewrite Hcur. exact Hs'.
Qed.

(** The Loader does not look for Records it has loaded before: a second
    run on the same document stores every Record once more, after the
    rows of the first run and with new ids. *)
Theorem second_run_appends_again (w : world) (meds : list record) (c0 : conn) :
  json_file w = Some meds ->
  create_database (db_file w) = (Ok tt, c0) ->
  has_schema c0 ->
  Forall insertable meds ->
  exists w1 w2 db1 db2,
    migrate_json_to_sqlite w = Returned w1 /\
    migrate_json_to_sqlite w1 = Returned w2 /\
    db_file w1 = Some db1 /\
    db_file w2 = Some db2 /\
    rows db2 = rows db1 ++ rows_from (last_id db1) meds /\
    length (rows db2) = length (file_rows (db_file w)) + 2 * length meds.
Proof.
  intros Hjson Hcreate Hs Hall.
  destruct (migrate_run_rows w Hjson Hcreate Hs Hall)
    as [w1 [db1 [Hrun1 [Hjson1 [Hdb1 [Ht1 [Hi1 [Hr1 Hl1]]]]]]]].
  destruct (create_database_ok_data _ Hcreate) as [Er _].
  destruct (@create_database_after_run _ _ _ Hcreate Hs Ht1 Hi1) as [c1 [Hcreate1 [Hs1 Hc1]]].
  rewrite <- Hdb1 in Hcreate1.
  destruct (migrate_run_rows w1 Hjson1 Hcreate1 Hs1 Hall)
    as [w2 [db2 [Hrun2 [_ [Hdb2 [_ [_ [Hr2 _]]]]]]]].
  rewrite Hc1 in Hr2.
  exists w1, w2, db1, db2. repeat (split; [assumption|]).
  rewrite Hr2, Hr1, !length_app, !rows_from_length, Er. lia.
Qed.

Lemma second_run_appends_again_witness :
  exists w1 w2 db1 db2,
    migrate_json_to_sqlite world_three = Returned w1 /\
    migrate_json_to_sqlite w1 = Returned w2 /\
    db_file w1 = Some db1 /\
    db_file w2 = Some db2 /\
    rows db2 = rows db1 ++ rows_from (last_id db1) three_medicines /\
    length (rows db2) = 0 + 2 * 3.
Proof.
  apply (@second_run_appends_again world_three three_medicines sample_conn
           eq_refl eq_refl sample_conn_schema three_insertable).
Defined.

(** ** A Record that cannot be inserted *)

Lemma forM_inserts_fails (pre post : list record) (bad : record) (c : conn) :
  has_schema c -> Forall insertable pre ->
  dict_find bad productnaam = Some None ->
  exists c',
    forM (pre ++ bad :: post) insert_medicine c = (Raise IntegrityError, c') /\
    committed c' = committed c /\
    commit_sizes (trace c') = commit_sizes (trace c).
Proof.
  intros Hs Hall Hbad. revert c Hs.
  induction Hall as [|m pre Hm _ IH]; intros c Hs.
  - exists (with_failed_insert c). simpl. unfold mbind.
    rewrite (insert_medicine_spec _ Hs). unfold stored_value. rewrite Hbad.
    split; [reflexivity|]. split; [reflexivity|].
    simpl. rewrite commit_sizes_app. simpl. apply app_nil_r.
  - destruct (IH (inserted c m)) as [c' [Hrun [Hc Hsz]]]; [exact Hs|].
    exists c'. simpl. unfold mbind.
    rewrite (insert_medicine_inserted Hs Hm), Hrun.
    split; [reflexivity|]. split; [exact Hc|].
    rewrite Hsz. simpl. rewrite commit_sizes_app. simpl. apply app_nil_r.
Qed.

Lemma slice_in_prefix (good tl : list record) (start : nat) :
  start + batch_size <= length good ->
  slice (good ++ tl) start (start + batch_size)
  = slice good start (start + batch_size).
Proof.
  intros H. unfold slice. replace (start + batch_size - start) with batch_size by lia.
  rewrite skipn_app, firstn_app, length_skipn.
  replace (batch_size - (length good - start)) with 0 by lia.
  simpl. apply app_nil_r.
Qed.

Lemma slice_reaches (good rest : list record) (bad : record) (start : nat) :
  start <= length good -> length good < start + batch_size ->
  slice (good ++ bad :: rest) start (start + batch_size)
  = skipn start good
    ++ bad :: firstn (batch_size - (length good - start) - 1) rest.
Proof.
  intros H1 H2. unfold slice.
  replace (start + batch_size - start) with batch_size by lia.
  rewrite skipn_app, firstn_app, length_skipn.
  replace (start - length good) with 0 by lia. simpl skipn.
  rewrite firstn_all2 by (rewrite length_skipn; lia).
  remember (batch_size - (length good - start)) as n eqn:En.
  destruct n as [|k]; [lia|]. simpl. rewrite Nat.sub_0_r. reflexivity.
Qed.

(** The batch loop on a document whose first Record with a null product
    name comes after the Records [good]: the batches that lie within
    [good] are committed, the batch that reaches the Record raises. *)
Lemma forM_range_fails (good rest : list record) (bad : record)
    (fuel start : nat) (c : conn) :
  let meds := good ++ bad :: rest in
  length meds - start <= fuel ->
  start <= length good ->
  has_schema c -> committed c = current c ->
  Forall insertable good ->
  dict_find bad productnaam = Some None ->
  exists c',
    forM (range_from fuel start (length meds) batch_size) (insert_batch meds) c
    = (Raise IntegrityError, c') /\
    rows (committed c') =
      rows (current c)
      ++ rows_from (last_id (current c))
           (firstn (batch_size * ((length good - start) / batch_size))
                   (skipn start meds)) /\
    commit_sizes (trace c') =
      commit_sizes (trace c)
      ++ repeat batch_size ((length good - start) / batch_size).
Proof.
  intros meds Hfuel Hstart Hs Hsync Hgood Hbad.
  assert (Hlen : length meds = length good + S (length rest)).
  { unfold meds. rewrite length_app. reflexivity. }
  revert start c Hfuel Hstart Hs Hsync.
  induction fuel as [|fuel IH]; intros start c Hfuel Hstart Hs Hsync; [lia|].
  cbn [range_from].
  destruct (Nat.ltb_spec start (length meds)) as [Hlt|Hge]; [|lia].
  cbn [forM].
  destruct (Nat.le_gt_cases (start + batch_size) (length good)) as [Hin|Hout].
  - assert (Hbatch : Forall insertable (slice meds start (start + batch_size))).
    { unfold meds. rewrite (@slice_in_prefix good (bad :: rest) start Hin).
      apply Forall_forall. intros m Hm. apply in_slice in Hm.
      rewrite Forall_forall in Hgood. apply Hgood, Hm. }
    destruct (@insert_batch_rows meds start c Hs Hsync Hbatch Hlt)
      as [c1 [Hrun1 [Ht1 [_ [Hsync1 [Hr1 [Hl1 Hsz1]]]]]]].
    destruct (IH (start + batch_size) c1) as [c' [Hrun [Hr Hsz]]].
    { unfold batch_size in *. lia. }
    { exact Hin. }
    { exact (@has_schema_tables c c1 Ht1 Hs). }
    { exact Hsync1. }
    assert (Hq : (length good - start) / batch_size
                 = S ((length good - (start + batch_size)) / batch_size)).
    { replace (length good - start)
        with ((length good - (start + batch_size)) + 1 * batch_size) by lia.
      rewrite Nat.div_add by (unfold batch_size; lia). lia. }
    assert (Hb : batch_length meds start = batch_size).
    { rewrite batch_length_min. unfold batch_size in *. lia. }
    exists c'. unfold mbind. rewrite Hrun1, Hrun. split; [reflexivity|]. split.
    + assert (E : firstn (batch_size * S ((length good - (start + batch_size)) / batch_size))
                         (skipn start meds)
                  = slice meds start (start + batch_size)
                    ++ firstn (batch_size * ((length good - (start + batch_size)) / batch_size))
                              (skipn (start + batch_size) meds)).
      { rewrite Nat.mul_succ_r, (Nat.add_comm _ batch_size), firstn_add, skipn_skipn.
        unfold slice. replace (start + batch_size - start) with batch_size by lia.
        rewrite (Nat.add_comm batch_size start). reflexivity. }
      rewrite Hr, Hr1, Hl1, Hq, E, <- app_assoc, rows_from_app.
      fold (batch_length meds start). reflexivity.
    + rewrite Hsz, Hsz1, Hq, Hb, <- app_assoc. reflexivity.
  - destruct (@forM_inserts_fails (skipn start good)
                (firstn (batch_size - (length good - start) - 1) rest) bad c Hs)
      as [c1 [Hrun1 [Hc1 Hsz1]]].
    { apply Forall_forall. intros m Hm.
      rewrite Forall_forall in Hgood. apply Hgood.
      rewrite <- (firstn_skipn start good). apply in_or_app. right. exact Hm. }
    { exact Hbad. }
    exists c1. unfold mbind, insert_batch, mbind.
    unfold meds. rewrite (@slice_reaches good rest bad start Hstart Hout), Hrun1.
    rewrite (Nat.div_small (length good - start)) by lia.
    rewrite Nat.mul_0_r. simpl. rewrite !app_nil_r.
    split; [reflexivity|]. split; [congruence|exact Hsz1].
Qed.



(** ** Rows are only ever added *)

Lemma extends_refl (l : list row) : extends l l.
Proof. exists []. symmetry. apply app_nil_r. Qed.

Lemma extends_trans (l1 l2 l3 : list row) :
  extends l1 l2 -> extends l2 l3 -> extends l1 l3.
Proof.
  intros [e1 ->] [e2 ->]. exists (e1 ++ e2). symmetry. apply app_assoc.
Qed.

Lemma only_adds_ret {A} (a : A) : only_adds (ret a).
Proof. intros c H. split; [exact H|apply extends_refl]. Qed.

Lemma only_adds_raise {A} (e : exn) : only_adds (@raise A e).
Proof. intros c H. split; [exact H|apply extends_refl]. Qed.

Lemma only_adds_log (o : op) : only_adds (log o).
Proof. intros c H. split; [exact H|apply extends_refl]. Qed.

Lemma only_adds_get_current : only_adds get_current.
Proof. intros c H. split; [exact H|apply extends_refl]. Qed.

Lemma only_adds_ddl (f : database -> database) :
  (forall db, rows (f db) = rows db) -> only_adds (ddl f).
Proof.
  intros Hf c H. unfold ddl, committed_first in *. simpl. rewrite !Hf.
  split; [exact H|apply extends_refl].
Qed.

Lemma only_adds_bind {A B} (m : M A) (f : A -> M B) :
  only_adds m -> (forall a, only_adds (f a)) -> only_adds (mbind m f).
Proof.
  intros Hm Hf c Hc. unfold mbind. destruct (Hm c Hc) as [H1 H2].
  destruct (m c) as [[a|e] c1]; simpl in *.
  - destruct (Hf a c1 H1) as [H3 H4]. split; [exact H3|].
    exact (extends_trans H2 H4).
  - split; assumption.
Qed.

Lemma only_adds_forM {A} (l : list A) (f : A -> M unit) :
  (forall a, only_adds (f a)) -> only_adds (forM l f).
Proof.
  intros Hf. induction l as [|a l IH]; simpl.
  - apply only_adds_ret.
  - apply only_adds_bind; [apply Hf|]. intros _. exact IH.
Qed.

Lemma only_adds_create_table (t : table) :
  only_adds (create_table_if_not_exists t).
Proof.
  unfold create_table_if_not_exists.
  apply only_adds_bind; [apply only_adds_log|]. intros _.
  apply only_adds_bind; [apply only_adds_get_current|]. intros db.
  destruct (find_table (tbl_name t) db); [apply only_adds_ret|].
  destruct (has_index (tbl_name t) db); [apply only_adds_raise|].
  apply only_adds_ddl. reflexivity.
Qed.

Lemma only_adds_create_index (i : index) :
  only_adds (create_index_if_not_exists i).
Proof.
  unfold create_index_if_not_exists.
  apply only_adds_bind; [apply only_adds_log|]. intros _.
  apply only_adds_bind; [apply only_adds_get_current|]. intros db.
  destruct (find_table (idx_table i) db) as [t|]; [|apply only_adds_raise].
  destruct (find_table (idx_name i) db); [apply only_adds_raise|].
  destruct (has_index (idx_name i) db); [apply only_adds_ret|].
  destruct (has_column (idx_col i) t); [|apply only_adds_raise].
  apply only_adds_ddl. reflexivity.
Qed.

Lemma only_adds_commit : only_adds commit.
Proof.
  intros c H. unfold commit. destruct (in_txn c); simpl.
  - split; [apply extends_refl|exact H].
  - split; [exact H|apply extends_refl].
Qed.

Lemma only_adds_close : only_adds close.
Proof. intros c H. unfold close. simpl. split; apply extends_refl. Qed.

Lemma only_adds_insert (name : str) (cols : list str) (params : list sqlval) :
  only_adds (insert_into name cols params).
Proof.
  intros c [ext H]. unfold insert_into, committed_first.
  destruct (find_table name (current c)) as [t|]; simpl.
  - destruct (negb _); simpl.
    + split; [exists ext; exact H|apply extends_refl].
    + destruct (violates_not_null _ _); simpl.
      * split; [exists ext; exact H|apply extends_refl].
      * split; [|apply extends_refl]. eexists. rewrite H, <- app_assoc.
        reflexivity.
  - split; [exists ext; exact H|apply extends_refl].
Qed.

Lemma only_adds_create_schema : only_adds create_schema.
Proof.
  unfold create_schema.
  apply only_adds_bind; [apply only_adds_create_table|]. intros _.
  apply only_adds_bind; [apply only_adds_create_index|]. intros _.
  apply only_adds_bind; [apply only_adds_create_index|]. intros _.
  apply only_adds_bind; [apply only_adds_create_index|]. intros _.
  apply only_adds_commit.
Qed.

(** The Loader never removes or changes a row the store already has.
    Whatever the document and the store, and whether the run returns or
    raises, the rows of the store afterwards begin with the rows it had
    before; when the Loader exits for want of a document, the world is
    untouched. *)
Theorem loader_only_adds_rows (w : world) :
  match migrate_json_to_sqlite w with
  | Returned w' | Raised _ w' =>
      json_file w' = json_file w /\
      exists db added, db_file w' = Some db /\
                       rows db = file_rows (db_file w) ++ added
  | Exited _ w' => w' = w
  end.
Proof.
  unfold migrate_json_to_sqlite. destruct (json_file w) as [meds|] eqn:Hjson;
    [|reflexivity].
  match goal with
  | |- context [match ?run (connect (db_file w)) with _ => _ end] =>
      assert (Hrun : only_adds run)
  end.
  { apply only_adds_bind; [apply only_adds_create_schema|]. intros _.
    apply only_adds_bind; [|intros _; apply only_adds_close].
    apply only_adds_forM. intros i. unfold insert_batch.
    apply only_adds_bind; [|intros _; apply only_adds_commit].
    apply only_adds_forM. intros m. apply only_adds_insert. }
  destruct (Hrun (connect (db_file w))) as [_ [added Hadd]].
  { apply extends_refl. }
  match goal with
  | |- context [match ?x with _ => _ end] => destruct x as [[u|e] c]
  end; simpl in *.
  - split; [reflexivity|]. exists (committed c), added. split; [reflexivity|].
    rewrite Hadd. destruct (db_file w); reflexivity.
  - split; [reflexivity|]. exists (committed c), added. split; [reflexivity|].
    rewrite Hadd. destruct (db_file w); reflexivity.
Qed.

(** * The two scripts together *)

(** The Loader reads what the Normalizer built: loading the file that
    [convert_csv_to_json] wrote gives the very Records of the conversion,
    in order and with their nulls, as many as the count it returned. *)
Theorem loader_reads_normalizer_records (table : list (list str))
    (file : list Byte.byte) (n : nat) :
  convert_csv_to_json table = Ok (file, n) ->
  exists recs,
    read_records table = Ok recs /\
    read_json file = Some recs /\
    length recs = n.
Proof.
  unfold convert_csv_to_json.
  destruct (read_records table) as [recs|e] eqn:E; simpl; [|discriminate].
  intros [= <- <-]. exists recs. split; [reflexivity|]. split; [|reflexivity].
  apply read_write_json, (read_records_wf _ E).
Qed.

Lemma loader_reads_normalizer_records_witness :
  exists recs,
    read_records (sample_header :: sample_rows) = Ok recs /\
    read_json (write_json sample_records) = Some recs /\
    length recs = 2.
Proof.
  apply (@loader_reads_normalizer_records (sample_header :: sample_rows)
           (write_json sample_records) 2).
  reflexivity.
Defined.

(** From a cell of the table to a column of the store: when a header cell
    lower-cases to the name of a column, and no other header cell has
    that name up to case, the row the Loader builds from the Record holds
    in that column the stripped text of the cell under it, and NULL when
    the row is too short to have that cell. *)
Theorem cell_reaches_column (fieldnames row : list str) (rec : record)
    (j : nat) (h column : str) :
  clean_row (dictreader_row fieldnames row) = Ok rec ->
  nth_error fieldnames j = Some h ->
  (forall j' h', nth_error fieldnames j' = Some h' ->
                 lower h' = lower h -> j' = j) ->
  lower h = column ->
  In column data_columns ->
  forall id,
    dict_find (medicine_row rec id) column =
    Some (match nth_error row j with
          | Some s => SqlText (strip s)
          | None => SqlNull
          end).
Proof.
  intros Hrec Hj Huniq Hcol Hin id.
  rewrite (medicine_row_find _ _ Hin). f_equal.
  unfold stored_value. rewrite <- Hcol.
  rewrite (@clean_row_find _ _ _ _ _ Hrec Hj Huniq).
  destruct (nth_error row j) as [[|c s]|]; reflexivity.
Qed.

Lemma cell_reaches_column_witness :
  dict_find (medicine_row sample_medicine 1) productnaam =
  Some (SqlText (strip (lit "Aspirin 500mg"))).
Proof.
  apply (@cell_reaches_column sample_header
           [lit "REG123"; lit " Tablet "; lit "Aspirin 500mg"]
           sample_medicine 2 (lit "ProductNaam") productnaam
           eq_refl eq_refl (@sample_header_distinct 2 _ eq_refl) eq_refl
           productnaam_column 1).
Defined.

(** A row too short to have a product-name cell passes the Normalizer,
    with a null product name, and is refused by the Loader: its INSERT
    raises the NOT NULL error and stores nothing. *)
Theorem short_row_refused (fieldnames row : list str) (rec : record)
    (j : nat) (h : str) (c : conn) :
  clean_row (dictreader_row fieldnames row) = Ok rec ->
  nth_error fieldnames j = Some h ->
  (forall j' h', nth_error fieldnames j' = Some h' ->
                 lower h' = lower h -> j' = j) ->
  lower h = productnaam ->
  length row <= j ->
  has_schema c ->
  dict_find rec productnaam = Some None /\
  exists c', insert_medicine rec c = (Raise IntegrityError, c') /\
             committed c' = committed c /\
             rows (current c') = rows (current c).
Proof.
  intros Hrec Hj Huniq Hcol Hshort Hs.
  assert (Hnull : dict_find rec productnaam = Some None).
  { rewrite <- Hcol, (@clean_row_find _ _ _ _ _ Hrec Hj Huniq).
    rewrite (proj2 (nth_error_None row j) Hshort). reflexivity. }
  split; [exact Hnull|].
  rewrite (insert_medicine_spec rec Hs). unfold stored_value. rewrite Hnull.
  eexists. split; [reflexivity|]. split; reflexivity.
Qed.

Lemma short_row_refused_witness :
  dict_find (nth 1 sample_records []) productnaam = Some None /\
  exists c', insert_medicine (nth 1 sample_records []) sample_conn
             = (Raise IntegrityError, c') /\
             committed c' = committed sample_conn /\
             rows (current c') = rows (current sample_conn).
Proof.
  apply (@short_row_refused sample_header [lit "REG9"; lit ""]
           (nth 1 sample_records []) 2 (lit "ProductNaam") sample_conn
           eq_refl eq_refl (@sample_header_distinct 2 _ eq_refl) eq_refl).
  - simpl. lia.
  - exact sample_conn_schema.
Defined.

(** * Further properties *)

(** Every Record has the same field names, whatever the length of its
    row: they are the header cells, lower-cased; a short row drops no
    field and no Record has a field the header does not name. *)
Theorem records_have_header_fields (fieldnames : list str)
    (rows : list (list str)) (recs : list record) (rec : record) (k : str) :
  read_records (fieldnames :: rows) = Ok recs ->
  In rec recs ->
  (In k (keys rec) <-> In k (map lower fieldnames)).
Proof.
  simpl. intros Hrecs Hrec. apply mapM_Forall2 in Hrecs.
  induction Hrecs as [|row rec' l recs' Hrow _ IH]; [destruct Hrec|].
  destruct Hrec as [->|Hrec]; [|exact (IH Hrec)].
  rewrite (clean_row_keys _ _ k Hrow), in_map_iff. split.
  - intros [h [Hh ->]]. exists h. split; [reflexivity|exact Hh].
  - intros [h [<- Hh]]. exists h. split; [exact Hh|reflexivity].
Qed.

Lemma records_have_header_fields_witness :
  In (lit "productnaam") (keys (nth 1 sample_records [])) <->
  In (lit "productnaam") (map lower sample_header).
Proof.
  apply (@records_have_header_fields sample_header sample_rows sample_records).
  - reflexivity.
  - right. left. reflexivity.
Defined.

Lemma insertable_split (meds : list record) :
  Forall insertable meds \/
  exists good bad rest,
    meds = good ++ bad :: rest /\
    Forall insertable good /\
    dict_find bad productnaam = Some None.
Proof.
  induction meds as [|m meds IH].
  - left. constructor.
  - destruct (dict_find m productnaam) as [[s|]|] eqn:E.
    + destruct IH as [IH|[good [bad [rest [-> [Hg Hb]]]]]].
      * left. constructor; [unfold insertable; congruence|exact IH].
      * right. exists (m :: good), bad, rest. split; [reflexivity|].
        split; [constructor; [unfold insertable; congruence|exact Hg]|exact Hb].
    + right. exists [], m, meds. split; [reflexivity|]. split; [constructor|exact E].
    + destruct IH as [IH|[good [bad [rest [-> [Hg Hb]]]]]].
      * left. constructor; [unfold insertable; congruence|exact IH].
      * right. exists (m :: good), bad, rest. split; [reflexivity|].
        split; [constructor; [unfold insertable; congruence|exact Hg]|exact Hb].
Qed.

(** On a store that has the schema, the run returns exactly when no
    Record of the document has a null product name; otherwise it raises
    IntegrityError.  Null in any other field, missing fields and unknown
    fields never stop it. *)
Theorem run_returns_iff_names_not_null (w : world) (meds : list record)
    (c0 : conn) :
  json_file w = Some meds ->
  create_database (db_file w) = (Ok tt, c0) ->
  has_schema c0 ->
  ((exists w', migrate_json_to_sqlite w = Returned w') <->
   Forall insertable meds) /\
  ((exists w', migrate_json_to_sqlite w = Raised IntegrityError w') <->
   ~ Forall insertable meds).
Proof.
  intros Hjson Hcreate Hs.
  assert (Hok : Forall insertable meds ->
                exists w', migrate_json_to_sqlite w = Returned w').
  { intros Hall.
    destruct (migrate_run_rows w Hjson Hcreate Hs Hall) as [w' [_ [Hrun _]]].
    exists w'. exact Hrun. }
  assert (Hbad : forall good bad rest,
             meds = good ++ bad :: rest -> Forall insertable good ->
             dict_find bad productnaam = Some None ->
             exists w', migrate_json_to_sqlite w = Raised IntegrityError w').
  { intros good bad rest -> Hg Hb. unfold create_database in Hcreate.
    destruct (create_schema_ok Hcreate (connect_synced (db_file w)))
      as [[Hsync _] _].
    destruct (@forM_range_fails good rest bad (length (good ++ bad :: rest)) 0 c0
                (Nat.le_sub_l _ _) (Nat.le_0_l _) Hs Hsync Hg Hb)
      as [c1 [Hrun _]].
    unfold migrate_json_to_sqlite. rewrite Hjson. unfold mbind at 1 2.
    rewrite Hcreate.
    fold (range 0 (length (good ++ bad :: rest)) batch_size) in Hrun.
    rewrite Hrun. eexists. reflexivity. }
  split; split.
  - intros [w' Hret].
    destruct (insertable_split meds) as [H|[good [bad [rest [E [Hg Hb]]]]]];
      [exact H|].
    destruct (Hbad _ _ _ E Hg Hb) as [w'' Hr]. congruence.
  - exact Hok.
  - intros [w' Hr] Hall. destruct (Hok Hall) as [w'' Hret]. congruence.
  - intros Hnot.
    destruct (insertable_split meds) as [H|[good [bad [rest [E [Hg Hb]]]]]];
      [contradiction|].
    exact (Hbad _ _ _ E Hg Hb).
Qed.

Lemma run_returns_iff_names_not_null_witness :
  ((exists w', migrate_json_to_sqlite world_three = Returned w') <->
   Forall insertable three_medicines) /\
  ((exists w', migrate_json_to_sqlite world_three = Raised IntegrityError w') <->
   ~ Forall insertable three_medicines).
Proof.
  apply (@run_returns_iff_names_not_null world_three three_medicines sample_conn
           eq_refl eq_refl sample_conn_schema).
Defined.
